(** * Carrier: the request dispatcher of [carrier.ts]

    A shallow embedding of the [Carrier] class (profiles, auth strategies,
    lifecycle hooks, URL resolution, [send] and the response container),
    followed by the properties of its dispatch pipeline.

    Modelling conventions.
    - A JavaScript string is a Rocq [string], read as the UTF-8 bytes of a
      well-formed text. [startsWith], [includes] and [+] act on it
      byte-wise, which agrees with the code-unit operations for the ASCII
      patterns the class uses. A value that may be [undefined] or [null] is
      an [option].
    - [Record<string, string>] and the [profiles] object are [gmap string
      string], the map of the properties of the object itself; the hook
      table is a [gmap] from the event to the array of callbacks. A read
      [object[name]] that finds no property of the object goes on to what
      objects inherit, and an assignment [object["__proto__"] = value]
      reaches the accessor of the prototype when the object has no
      property of that name.
    - The base URL is only ever concatenated: the field holds what its
      value reads as a string.
    - The class mutates [this], [localStorage] and, through callbacks, the
      options object of the call: these objects, with the state the
      callbacks keep for themselves, form the [Heap], threaded through a
      state-and-exception monad. An exception keeps the heap reached so
      far, as in JavaScript.
    - A callback is a closure the class knows by reference; what it does
      when called is given by a function of the platform: it may change
      the heap, and it returns or throws. It runs to its end before the
      class goes on.
    - [btoa], [JSON.stringify], [localStorage.setItem] and [fetch] belong
      to the platform: each of them may throw, and the properties hold
      whatever they do.
    - A run leaves a trace of what the outside sees of it: every call of a
      callback, with the way it ended, and the network call.
    - One [send] is followed in isolation: no other task runs at its two
      [await] points. *)

From Stdlib Require Import ZArith String Ascii.
From stdpp Require Import gmap strings list pretty.

Local Open Scope string_scope.
Local Open Scope Z_scope.
Local Open Scope list_scope.
Local Set Warnings "-register-all".

(** ** Strings *)

Module Js.

(** [s.startsWith(p)] *)
Definition startsWith (s p : string) : bool := String.prefix p s.

(** [s.includes(needle)] *)
Fixpoint includes (s needle : string) : bool :=
  String.prefix needle s ||
  match s with
  | EmptyString => false
  | String _ rest => includes rest needle
  end.

(** Truthiness of a possibly missing string: [undefined], [null] and the
    empty string are falsy. *)
Definition truthy (o : option string) : bool :=
  match o with
  | Some s => negb (String.eqb s "")
  | None => false
  end.

(** The string itself when it is truthy. *)
Definition present (o : option string) : option string :=
  match o with
  | Some s => if String.eqb s "" then None else Some s
  | None => None
  end.

(** [a || d] where [a] is a possibly missing string. *)
Definition or_else (o : option string) (d : string) : string :=
  default d (present o).

(** The characters [encodeURIComponent] leaves alone:
    [A-Z a-z 0-9 - _ . ! ~ * ' ( )]. *)
Definition uri_unreserved (c : ascii) : bool :=
  let n := Z.of_nat (nat_of_ascii c) in
  ((65 <=? n) && (n <=? 90)) || ((97 <=? n) && (n <=? 122)) ||
  ((48 <=? n) && (n <=? 57)) ||
  existsb (Z.eqb n) [45; 95; 46; 33; 126; 42; 39; 40; 41].

Definition hex_digit (n : Z) : ascii :=
  ascii_of_nat (Z.to_nat (if n <? 10 then 48 + n else 55 + n)).

Definition percent_byte (c : ascii) : string :=
  let n := Z.of_nat (nat_of_ascii c) in
  String "%" (String (hex_digit (n / 16)) (String (hex_digit (n mod 16)) "")).

(** [encodeURIComponent(s)]: every byte of the UTF-8 form outside the
    unreserved set becomes [%XX] in upper-case hexadecimal. *)
Fixpoint encodeURIComponent (s : string) : string :=
  match s with
  | EmptyString => ""
  | String c rest =>
      (if uri_unreserved c then String c "" else percent_byte c)
      +:+ encodeURIComponent rest
  end.

(** The alphabet of base64: [A-Z a-z 0-9 + /]. *)
Definition base64_digit (n : Z) : ascii :=
  ascii_of_nat (Z.to_nat
    (if n <? 26 then 65 + n
     else if n <? 52 then 71 + n
     else if n <? 62 then n - 4
     else if n =? 62 then 43 else 47)).

Definition code (c : ascii) : Z := Z.of_nat (nat_of_ascii c).

(** The code points of a text, one byte each, when all of them are below
    256; [None] when one is not. In UTF-8 the code points from 128 to 255
    take two bytes, the first of them 194 or 195. *)
Fixpoint latin1 (s : string) : option string :=
  match s with
  | EmptyString => Some ""
  | String c rest =>
      if code c <? 128 then option_map (String c) (latin1 rest)
      else
        match rest with
        | String d rest' =>
            if (code c =? 194) && (128 <=? code d) && (code d <? 192)
            then option_map (String d) (latin1 rest')
            else if (code c =? 195) && (128 <=? code d) && (code d <? 192)
            then option_map (String (ascii_of_nat (Z.to_nat (code d + 64))))
                   (latin1 rest')
            else None
        | EmptyString => None
        end
  end.

(** The base64 form of a sequence of bytes, three bytes at a time, padded
    with [=]. *)
Fixpoint base64 (s : string) : string :=
  match s with
  | EmptyString => ""
  | String a EmptyString =>
      let n := code a * 65536 in
      String (base64_digit (n / 262144))
        (String (base64_digit (n / 4096 mod 64)) "==")
  | String a (String b EmptyString) =>
      let n := code a * 65536 + code b * 256 in
      String (base64_digit (n / 262144))
        (String (base64_digit (n / 4096 mod 64))
           (String (base64_digit (n / 64 mod 64)) "="))
  | String a (String b (String c rest)) =>
      let n := code a * 65536 + code b * 256 + code c in
      String (base64_digit (n / 262144))
        (String (base64_digit (n / 4096 mod 64))
           (String (base64_digit (n / 64 mod 64))
              (String (base64_digit (n mod 64)) (base64 rest))))
  end.

Definition hex_lower (n : Z) : ascii :=
  ascii_of_nat (Z.to_nat (if n <? 10 then 48 + n else 87 + n)).

(** One character inside a JSON string: the quotation mark, the backslash
    and the control characters are escaped. *)
Definition json_escape (c : ascii) : string :=
  let n := code c in
  if n =? 34 then String "092" (String "034" "")
  else if n =? 92 then String "092" (String "092" "")
  else if n =? 8 then String "092" "b"
  else if n =? 9 then String "092" "t"
  else if n =? 10 then String "092" "n"
  else if n =? 12 then String "092" "f"
  else if n =? 13 then String "092" "r"
  else if n <? 32 then
    String "092"
      ("u00" +:+ String (hex_lower (n / 16)) (String (hex_lower (n mod 16)) ""))
  else String c "".

Fixpoint json_escapes (s : string) : string :=
  match s with
  | EmptyString => ""
  | String c rest => json_escape c +:+ json_escapes rest
  end.

(** A string as JSON writes it, between quotation marks. *)
Definition quote (s : string) : string :=
  String "034" (json_escapes s +:+ String "034" "").

(** [object[key] = value] on an object made by an object literal. Under
    [__proto__] an object without a property of that name has the
    accessor of its prototype, whose setter passes over a string. *)
Definition assign (key value : string) (object : gmap string string)
    : gmap string string :=
  if String.eqb key "__proto__" && negb (bool_decide (is_Some (object !! key)))
  then object
  else <[key := value]> object.

(** What a read [object[name]] finds: a string of the object itself, or a
    value that objects inherit, a function or an object, which is truthy
    and is kept as what it reads as a string. *)
Inductive Property :=
  | Own (s : string)
  | Inherited (text : string).

(** [object[name]], where [inherited] tells what objects inherit. *)
Definition get (inherited : string -> option string)
    (object : gmap string string) (name : string) : option Property :=
  match object !! name with
  | Some s => Some (Own s)
  | None => option_map Inherited (inherited name)
  end.

(** Truthiness of what a read found. *)
Definition holds (o : option Property) : bool :=
  match o with
  | Some (Own s) => negb (String.eqb s "")
  | Some (Inherited _) => true
  | None => false
  end.

(** What a value that was found reads as when it is concatenated. *)
Definition text (o : option Property) : string :=
  match o with
  | Some (Own s) | Some (Inherited s) => s
  | None => "undefined"
  end.

End Js.

(** ** Data model *)

(** A value of type [unknown]: what [response.json()] yields and what
    [options.data] holds. Besides the JSON values, whose numbers are taken
    to be integers and whose objects list their fields in the order the
    object enumerates them, there are the BigInts and every other value (a
    function, a symbol, an object that is no tree of JSON values), known
    by reference. *)
Inductive Json : Type :=
  | JNull
  | JBool (b : bool)
  | JNum (n : Z)
  | JStr (s : string)
  | JArr (items : list Json)
  | JObj (fields : list (string * Json))
  | JBigInt (n : Z)
  | JOther (ref : nat).

(** Truthiness of a possibly [undefined] value, as [options.data || {}]
    tests it. *)
Definition json_truthy (o : option Json) : bool :=
  match o with
  | None | Some JNull | Some (JBool false) | Some (JNum 0) | Some (JStr "")
  | Some (JBigInt 0) => false
  | Some _ => true
  end.

Inductive Method := GET | POST | PUT | DELETE | PATCH | HEAD | OPTIONS.

Inductive RequestCredentials := CredOmit | CredSameOrigin | CredInclude.

Inductive ApiKeyIn := InHeader | InQuery.

Inductive CarrierAuthConfig :=
  | AuthBearer (token : string)
  | AuthBasic (username password : string)
  | AuthApiKey (key value : string) (placement : ApiKeyIn).

Inductive CarrierHookEvent :=
  | EvRequest | EvResponse | EvOk | EvError
  | EvGet | EvPost | EvPut | EvDelete | EvPatch.

#[global] Instance Method_eq_dec : EqDecision Method.
Proof. solve_decision. Defined.

#[global] Instance CarrierHookEvent_eq_dec : EqDecision CarrierHookEvent.
Proof. solve_decision. Defined.

#[global] Instance CarrierHookEvent_countable : Countable CarrierHookEvent.
Proof.
  refine (inj_countable'
    (fun e => match e with
              | EvRequest => 0%nat | EvResponse => 1%nat | EvOk => 2%nat
              | EvError => 3%nat | EvGet => 4%nat | EvPost => 5%nat
              | EvPut => 6%nat | EvDelete => 7%nat | EvPatch => 8%nat
              end)
    (fun n => match n with
              | 0%nat => EvRequest | 1%nat => EvResponse | 2%nat => EvOk
              | 3%nat => EvError | 4%nat => EvGet | 5%nat => EvPost
              | 6%nat => EvPut | 7%nat => EvDelete | _ => EvPatch
              end) _).
  by intros [].
Defined.

Record CarrierOptions := {
  opt_method : option Method;
  opt_url : string;
  opt_data : option Json;
  opt_headers : option (gmap string string);
  opt_useToken : option bool;
  opt_credentials : option RequestCredentials;
  opt_auth : option CarrierAuthConfig;
}.

Record CarrierProfileConfig := {
  cfg_env : option string;
  cfg_profiles : gmap string string;
  cfg_token : option string;
}.

(** What the class uses of a [Response]: its status and the outcome of
    [json()], [None] when the body does not parse. *)
Record Response := {
  resp_status : Z;
  resp_json : option Json;
}.

Record CarrierContainer := {
  data : Json;
  status : Z;
  raw : option Response;
}.

(** A callback is a closure; the hook table holds references to closures. *)
Definition CarrierHook := nat.

Record Carrier := {
  container : CarrierContainer;
  token : option string;
  baseUrl : string;
  globalAuth : option CarrierAuthConfig;
  hooks : gmap CarrierHookEvent (list CarrierHook);
}.

(** [new Carrier()] *)
Definition new_Carrier : Carrier := {|
  container := {| data := JNull; status := 0; raw := None |};
  token := None;
  baseUrl := "";
  globalAuth := None;
  hooks := ∅;
|}.

(** The second argument of [fetch]. The body is what [JSON.stringify]
    returned, [None] when the property is [undefined]. *)
Record RequestInit := {
  init_method : Method;
  init_headers : gmap string string;
  init_credentials : RequestCredentials;
  init_body : option string;
}.

Record JsError := {
  err_name : string;
  err_message : string;
}.

Definition Error (msg : string) : JsError :=
  {| err_name := "Error"; err_message := msg |}.

Definition TypeError (msg : string) : JsError :=
  {| err_name := "TypeError"; err_message := msg |}.

(** The objects a call can reach and change: the client, the credential
    store, the options object of the call under way, and whatever the
    callbacks keep for themselves. *)
Record Heap := {
  self : Carrier;
  localStorage : gmap string string;
  options : CarrierOptions;
  elsewhere : Json;
}.

(** The arguments a callback receives. The options object is passed by
    reference: the callback reads and writes it through the heap. *)
Inductive JsArg :=
  | ArgOptions
  | ArgString (s : string)
  | ArgData (d : option Json)
  | ArgResponse (r : Response).

(** How a piece of code ends: with a value, or with an exception. *)
Inductive Outcome (A : Type) :=
  | Returned (a : A)
  | Threw (e : JsError).
Arguments Returned {A} a.
Arguments Threw {A} e.

(** What a run does that the outside can see, in order: the call of a
    callback with the way it ended, and the network call. *)
Inductive Obs :=
  | HookCall (event : CarrierHookEvent) (cb : CarrierHook) (args : list JsArg)
      (result : Outcome unit)
  | Fetch (url : string) (init : RequestInit).

Record World := {
  heap : Heap;
  trace : list Obs;
}.

(** ** Computations that change the world and may throw *)

Definition M (A : Type) : Type := World -> Outcome A * World.

Definition ret {A} (a : A) : M A := fun w => (Returned a, w).

Definition throw {A} (e : JsError) : M A := fun w => (Threw e, w).

Definition bind {A B} (m : M A) (k : A -> M B) : M B :=
  fun w =>
    match m w with
    | (Returned a, w') => k a w'
    | (Threw e, w') => (Threw e, w')
    end.

Notation "x <- m ;; k" := (bind m (fun x => k))
  (at level 100, m at next level, right associativity).
Notation "m ;;; k" := (bind m (fun _ => k))
  (at level 100, right associativity).

Definition gets {A} (f : Carrier -> A) : M A :=
  fun w => (Returned (f (self (heap w))), w).

Definition get_options : M CarrierOptions :=
  fun w => (Returned (options (heap w)), w).

Definition modify_heap (f : Heap -> Heap) : M unit :=
  fun w => (Returned tt, {| heap := f (heap w); trace := trace w |}).

Definition modify_self (f : Carrier -> Carrier) : M unit :=
  modify_heap (fun h =>
    {| self := f (self h); localStorage := localStorage h; options := options h;
       elsewhere := elsewhere h |}).

Definition emit (o : Obs) : M unit :=
  fun w => (Returned tt, {| heap := heap w; trace := trace w ++ [o] |}).

Definition lift {A} (o : Outcome A) : M A := fun w => (o, w).

Definition when (b : bool) (m : M unit) : M unit := if b then m else ret tt.

(** ** The class *)

Definition with_container (k : CarrierContainer) (c : Carrier) : Carrier :=
  {| container := k; token := token c; baseUrl := baseUrl c;
     globalAuth := globalAuth c; hooks := hooks c |}.

Definition with_token (t : option string) (c : Carrier) : Carrier :=
  {| container := container c; token := t; baseUrl := baseUrl c;
     globalAuth := globalAuth c; hooks := hooks c |}.

Definition with_baseUrl (u : string) (c : Carrier) : Carrier :=
  {| container := container c; token := token c; baseUrl := u;
     globalAuth := globalAuth c; hooks := hooks c |}.

Definition with_globalAuth (a : option CarrierAuthConfig) (c : Carrier) : Carrier :=
  {| container := container c; token := token c; baseUrl := baseUrl c;
     globalAuth := a; hooks := hooks c |}.

Definition with_hooks (hs : gmap CarrierHookEvent (list CarrierHook)) (c : Carrier) : Carrier :=
  {| container := container c; token := token c; baseUrl := baseUrl c;
     globalAuth := globalAuth c; hooks := hs |}.

Definition with_options (o : CarrierOptions) (h : Heap) : Heap :=
  {| self := self h; localStorage := localStorage h; options := o;
     elsewhere := elsewhere h |}.

Section Carrier.

(** The platform around the class:
    - [globalThis.location?.hostname], [None] when there is no location;
    - what objects inherit: [inherited name] is the value found under
      [name] on the prototype of an object literal, as it reads as a
      string, [None] when nothing truthy is found there;
    - the credential store: [rejects store key value] is what
      [localStorage.setItem(key, value)] throws on that store (because it
      is full, or closed to the page), [None] when it takes the pair;
    - [btoa], which throws outside Latin-1;
    - [JSON.stringify], which throws on some values (a BigInt, an object
      with a cycle) and returns [undefined], here [None], for others (a
      function, a symbol);
    - [fetch], which rejects on a transport failure;
    - the body of every callback, a synchronous piece of code that may
      change the heap and may throw. *)
Variable hostname : option string.
Variable inherited : string -> option string.
Variable rejects : gmap string string -> string -> string -> option JsError.
Variable btoa : string -> Outcome string.
Variable stringify : Json -> Outcome (option string).
Variable fetch : string -> RequestInit -> Outcome Response.
Variable callback : CarrierHook -> list JsArg -> Heap -> Outcome unit * Heap.

Definition inferEnv : M string :=
  match hostname with
  | Some h =>
      if String.eqb h "localhost" then ret "dev"
      else if Js.includes h "qacore" then ret "qa"
      else ret "prod"
  | None =>
      throw (TypeError "Cannot read properties of undefined (reading 'includes')")
  end.

(** [localStorage.setItem(key, value)]: the store takes the pair, or it
    throws and stays as it is. *)
Definition setItem (key value : string) : M unit :=
  fun w =>
    match rejects (localStorage (heap w)) key value with
    | Some e => (Threw e, w)
    | None =>
        (Returned tt,
         {| heap := {| self := self (heap w);
                       localStorage := <[key := value]> (localStorage (heap w));
                       options := options (heap w);
                       elsewhere := elsewhere (heap w) |};
            trace := trace w |})
    end.

Definition setToken (t : string) : M unit :=
  modify_self (with_token (Some t)) ;;;
  setItem "token" t.

Definition configureProfiles (config : CarrierProfileConfig) : M unit :=
  env <- match Js.present (cfg_env config) with
         | Some e => ret e
         | None => inferEnv
         end ;;
  let url := Js.get inherited (cfg_profiles config) env in
  if negb (Js.holds url)
  then throw (Error ("No baseUrl found for environment: " +:+ env))
  else
    modify_self (with_baseUrl (Js.text url)) ;;;
    match Js.present (cfg_token config) with
    | Some t => setToken t
    | None => ret tt
    end.

Definition configureBaseUrl (url : string) : M unit :=
  modify_self (with_baseUrl url).

Definition configureToken (t : string) : M unit := setToken t.

Definition configureAuth (auth : CarrierAuthConfig) : M unit :=
  modify_self (with_globalAuth (Some auth)).

Definition on (event : CarrierHookEvent) (cb : CarrierHook) : M unit :=
  modify_self (fun c =>
    with_hooks (<[event := default [] (hooks c !! event) ++ [cb]]> (hooks c)) c).

(** One call [cb(...args)]. *)
Definition invoke (event : CarrierHookEvent) (args : list JsArg) (cb : CarrierHook) : M unit :=
  fun w =>
    let r := callback cb args (heap w) in
    (r.1, {| heap := r.2; trace := trace w ++ [HookCall event cb args r.1] |}).

(** [cbs.forEach(f)]. The array only ever grows ([on] pushes), and
    [forEach] fixes its range before the first call, so the elements
    visited are those present when it starts. *)
Fixpoint forEach (cbs : list CarrierHook) (f : CarrierHook -> M unit) : M unit :=
  match cbs with
  | [] => ret tt
  | cb :: rest => f cb ;;; forEach rest f
  end.

Definition trigger (event : CarrierHookEvent) (args : list JsArg) : M unit :=
  hs <- gets hooks ;;
  match hs !! event with
  | Some cbs => forEach cbs (invoke event args)
  | None => ret tt
  end.

(** [applyAuth] writes into the [headers] object it is given and returns
    the URL; here it returns both. *)
Definition applyAuth (this : Carrier) (headers : gmap string string)
    (auth : option CarrierAuthConfig) (url : option string)
    : Outcome (gmap string string * string) :=
  let chosen := match auth with Some a => Some a | None => globalAuth this end in
  match chosen with
  | None => Returned (headers, Js.or_else url "")
  | Some (AuthBearer t) =>
      Returned (<["Authorization" := "Bearer " +:+ t]> headers, Js.or_else url "")
  | Some (AuthBasic username password) =>
      match btoa (username +:+ ":" +:+ password) with
      | Returned encoded =>
          Returned (<["Authorization" := "Basic " +:+ encoded]> headers,
                    Js.or_else url "")
      | Threw e => Threw e
      end
  | Some (AuthApiKey key value InHeader) =>
      Returned (Js.assign key value headers, Js.or_else url "")
  | Some (AuthApiKey key value InQuery) =>
      match Js.present url with
      | Some u =>
          let separator := if Js.includes u "?" then "&" else "?" in
          let u' := u +:+ separator +:+ key +:+ "=" +:+ Js.encodeURIComponent value in
          Returned (headers, Js.or_else (Some u') "")
      | None => Returned (headers, Js.or_else url "")
      end
  end.

Definition resolveUrl (this : Carrier) (requestUrl : string) : string :=
  let isAbsolute :=
    Js.startsWith requestUrl "http://" || Js.startsWith requestUrl "https://" in
  if isAbsolute then requestUrl
  else Js.or_else (Some (baseUrl this)) "" +:+ requestUrl.

Definition ok (this : Carrier) : bool :=
  (200 <=? status (container this)) && (status (container this) <? 300).

Definition check (this : Carrier) : bool :=
  ok this && match data (container this) with JNull => false | _ => true end.

(** The headers object [send] has built when the first hook runs: the
    spread of the content type and of the caller's headers, the caller
    winning, then the implicit bearer token. *)
Definition build_headers (this : Carrier) (opts : CarrierOptions) : gmap string string :=
  let method := default GET (opt_method opts) in
  let userHeaders := default ∅ (opt_headers opts) in
  let headers :=
    userHeaders ∪
    (if bool_decide (method ≠ GET) then {["Content-Type" := "application/json"]} else ∅) in
  if bool_decide (opt_useToken opts ≠ Some false)
     && Js.truthy (token this)
     && negb (Js.truthy (headers !! "Authorization"))
  then <["Authorization" := "Bearer " +:+ default "" (token this)]> headers
  else headers.

Definition set_status (r : Response) (c : Carrier) : Carrier :=
  with_container {| data := data (container c); status := resp_status r;
                    raw := raw (container c) |} c.

Definition set_raw (r : Response) (c : Carrier) : Carrier :=
  with_container {| data := data (container c); status := status (container c);
                    raw := Some r |} c.

Definition set_data (d : Json) (c : Carrier) : Carrier :=
  with_container {| data := d; status := status (container c);
                    raw := raw (container c) |} c.

(** [send] returns [this]; the embedding returns nothing and leaves the
    client in the heap. A rejected promise is a thrown exception. The first
    step puts the options object of the call into the heap, where the
    callbacks reach it; [method], [headers] and [useToken] are read before
    any hook runs, [url], [data], [auth] and [credentials] after the
    pre-request hooks. The argument of [fetch] is evaluated before the
    call: when [JSON.stringify] throws, there is no network call. *)
Definition send (opts : CarrierOptions) : M unit :=
  modify_heap (with_options opts) ;;;
  let method := default GET (opt_method opts) in
  this <- gets id ;;
  let headers := build_headers this opts in
  trigger EvRequest [ArgOptions] ;;;
  when (bool_decide (method = GET))
    (o <- get_options ;; trigger EvGet [ArgString (opt_url o)]) ;;;
  when (bool_decide (method = POST))
    (o <- get_options ;; trigger EvPost [ArgString (opt_url o); ArgData (opt_data o)]) ;;;
  when (bool_decide (method = PUT))
    (o <- get_options ;; trigger EvPut [ArgString (opt_url o); ArgData (opt_data o)]) ;;;
  when (bool_decide (method = DELETE))
    (o <- get_options ;; trigger EvDelete [ArgString (opt_url o); ArgData (opt_data o)]) ;;;
  when (bool_decide (method = PATCH))
    (o <- get_options ;; trigger EvPatch [ArgString (opt_url o); ArgData (opt_data o)]) ;;;
  o <- get_options ;;
  this <- gets id ;;
  let fullUrl := resolveUrl this (opt_url o) in
  applied <- lift (applyAuth this headers (opt_auth o) (Some fullUrl)) ;;
  body <- lift (if bool_decide (method ≠ GET) && bool_decide (method ≠ HEAD)
                then stringify (if json_truthy (opt_data o)
                                then default JNull (opt_data o) else JObj [])
                else Returned None) ;;
  let init := {|
    init_method := method;
    init_headers := applied.1;
    init_credentials := default CredSameOrigin (opt_credentials o);
    init_body := body;
  |} in
  emit (Fetch applied.2 init) ;;;
  response <- lift (fetch applied.2 init) ;;
  modify_self (set_status response) ;;;
  modify_self (set_raw response) ;;;
  modify_self (set_data (default JNull (resp_json response))) ;;;
  trigger EvResponse [ArgResponse response] ;;;
  isOk <- gets ok ;;
  if isOk then trigger EvOk [ArgResponse response]
  else trigger EvError [ArgResponse response].

(** *** The stretches of [send]

    The statements of [send] around the network call, under names of
    their own: the verb event, the argument of [fetch], the post-response
    hooks ([send_stretches] below reads [send] in these terms). *)

Definition fire_verb (method : Method) : M unit :=
  when (bool_decide (method = GET))
    (o <- get_options ;; trigger EvGet [ArgString (opt_url o)]) ;;;
  when (bool_decide (method = POST))
    (o <- get_options ;; trigger EvPost [ArgString (opt_url o); ArgData (opt_data o)]) ;;;
  when (bool_decide (method = PUT))
    (o <- get_options ;; trigger EvPut [ArgString (opt_url o); ArgData (opt_data o)]) ;;;
  when (bool_decide (method = DELETE))
    (o <- get_options ;; trigger EvDelete [ArgString (opt_url o); ArgData (opt_data o)]) ;;;
  when (bool_decide (method = PATCH))
    (o <- get_options ;; trigger EvPatch [ArgString (opt_url o); ArgData (opt_data o)]).

(** The [body] property of the argument of [fetch]. *)
Definition request_body (method : Method) (o : CarrierOptions)
    : Outcome (option string) :=
  if bool_decide (method ≠ GET) && bool_decide (method ≠ HEAD)
  then stringify (if json_truthy (opt_data o) then default JNull (opt_data o)
                  else JObj [])
  else Returned None.

Definition request_init (method : Method) (headers : gmap string string)
    (o : CarrierOptions) (body : option string) : RequestInit := {|
  init_method := method;
  init_headers := headers;
  init_credentials := default CredSameOrigin (opt_credentials o);
  init_body := body;
|}.

Definition notify (response : Response) : M unit :=
  trigger EvResponse [ArgResponse response] ;;;
  isOk <- gets ok ;;
  if isOk then trigger EvOk [ArgResponse response]
  else trigger EvError [ArgResponse response].

(** *** Callbacks that keep their hands off *)

(** [cb] is registered for some event. *)
Definition registered (this : Carrier) (cb : CarrierHook) : Prop :=
  exists event cbs, hooks this !! event = Some cbs /\ cb ∈ cbs.

(** Whatever its arguments and the heap it starts from, and whether it
    returns or throws, [cb] registers no callback and leaves the part
    [part] of the heap as it found it. *)
Definition preserves {X} (part : Heap -> X) (cb : CarrierHook) : Prop :=
  forall args h,
    hooks (self (callback cb args h).2) = hooks (self h) /\
    part (callback cb args h).2 = part h.

Definition callbacks_preserve {X} (part : Heap -> X) (this : Carrier) : Prop :=
  forall cb, registered this cb -> preserves part cb.

End Carrier.

(** ** Vocabulary of the properties *)

(** *** Strings *)

(** [s] starts with one of the two scheme prefixes. *)
Definition absolute_url (s : string) : Prop :=
  exists rest, s = "http://" +:+ rest \/ s = "https://" +:+ rest.

(** [s] has an occurrence of [piece]. *)
Definition contains (s piece : string) : Prop :=
  exists before after, s = before +:+ piece +:+ after.

(** [o] holds no string, or the empty one. *)
Definition blank (o : option string) : Prop := o = None \/ o = Some "".

(** *** Profiles *)

(** The environment tag of a host name: the local marker gives [dev], a
    host with the QA marker gives [qa], any other host gives [prod]. *)
Definition environment_tag (host : string) : string :=
  if decide (host = "localhost") then "dev"
  else if Js.includes host "qacore" then "qa"
  else "prod".

(** The environment a profile configuration stands for: the explicit
    override when it is there and not empty, otherwise the tag of the host
    name. *)
Definition resolves_to (hostname : option string) (config : CarrierProfileConfig)
    (env : string) : Prop :=
  (cfg_env config = Some env /\ env <> "") \/
  (blank (cfg_env config) /\
   exists host, hostname = Some host /\ env = environment_tag host).

(** The profiles give nothing for [env]: the object has no URL of its own
    for it, or an empty one, and without one of its own it inherits
    nothing under that name. *)
Definition no_profile (inherited : string -> option string)
    (profiles : gmap string string) (env : string) : Prop :=
  profiles !! env = Some "" \/ (profiles !! env = None /\ inherited env = None).

(** *** Auth strategies *)

(** What each variant of an auth configuration does to the headers and to
    the URL, in the words of the specification: Bearer sets the header
    [Authorization] to [Bearer] and the token; Basic sets it to [Basic]
    and the base64 form of the user name and the password joined by a
    colon; an ApiKey in a header sets the header named by the key to the
    value; an ApiKey in the query appends the key, [=] and the
    percent-encoded value to the URL, after [?] when the URL has no query
    string and after [&] otherwise. *)
Definition specified_effect (btoa : string -> Outcome string) (c : CarrierAuthConfig)
    (headers : gmap string string) (url : string)
    : Outcome (gmap string string * string) :=
  match c with
  | AuthBearer t =>
      Returned (<["Authorization" := "Bearer " +:+ t]> headers, url)
  | AuthBasic username password =>
      match btoa (username +:+ ":" +:+ password) with
      | Returned encoded =>
          Returned (<["Authorization" := "Basic " +:+ encoded]> headers, url)
      | Threw e => Threw e
      end
  | AuthApiKey key value InHeader => Returned (<[key := value]> headers, url)
  | AuthApiKey key value InQuery =>
      Returned (headers,
                url +:+ (if Js.includes url "?" then "&" else "?")
                    +:+ key +:+ "=" +:+ Js.encodeURIComponent value)
  end.

(** The calls on which a variant has nothing in its way: the header of an
    ApiKey is not named like the accessor of the prototype, and the URL
    that an ApiKey is appended to is not empty. *)
Definition unhindered (c : CarrierAuthConfig) (url : string) : Prop :=
  match c with
  | AuthApiKey key _ InHeader => key <> "__proto__"
  | AuthApiKey _ _ InQuery => url <> ""
  | AuthBearer _ | AuthBasic _ _ => True
  end.

(** The auth configuration [applyAuth] acts on. *)
Definition chosen_auth (this : Carrier) (auth : option CarrierAuthConfig)
    : option CarrierAuthConfig :=
  match auth with
  | Some a => Some a
  | None => globalAuth this
  end.

(** The strategies that write the [Authorization] header. *)
Definition writes_authorization (chosen : option CarrierAuthConfig) : bool :=
  match chosen with
  | None => false
  | Some (AuthBearer _) | Some (AuthBasic _ _) => true
  | Some (AuthApiKey key _ InHeader) => String.eqb key "Authorization"
  | Some (AuthApiKey _ _ InQuery) => false
  end.

(** *** The client *)

Definition in_success_range (s : Z) : bool := (200 <=? s) && (s <? 300).

(** The four configuration fields of the client, without the container. *)
Definition configuration (this : Carrier)
    : option string * string * option CarrierAuthConfig
      * gmap CarrierHookEvent (list CarrierHook) :=
  (token this, baseUrl this, globalAuth this, hooks this).

(** The container [send] writes for a response. *)
Definition envelope_of (r : Response) : CarrierContainer :=
  {| data := default JNull (resp_json r); status := resp_status r; raw := Some r |}.

(** The world after the three writes of [send] into the container. *)
Definition recorded (r : Response) (w : World) : World :=
  {| heap := {| self := with_container (envelope_of r) (self (heap w));
                localStorage := localStorage (heap w);
                options := options (heap w);
                elsewhere := elsewhere (heap w) |};
     trace := trace w |}.

(** A world with nothing observed yet. *)
Definition world_of (h : Heap) : World := {| heap := h; trace := [] |}.

(** *** Hooks and traces *)

(** The callbacks registered for an event, in registration order. *)
Definition listeners (this : Carrier) (event : CarrierHookEvent) : list CarrierHook :=
  default [] (hooks this !! event).

(** The calls of one [trigger] in which every callback returns. *)
Definition calls (event : CarrierHookEvent) (args : list JsArg)
    (cbs : list CarrierHook) : list Obs :=
  map (fun cb => HookCall event cb args (Returned tt)) cbs.

(** A trace without the arguments: which callback ran for which event, and
    where the network call sits. *)
Inductive Step :=
  | Fired (event : CarrierHookEvent) (cb : CarrierHook)
  | Network.

Definition step_of (o : Obs) : Step :=
  match o with
  | HookCall event cb _ _ => Fired event cb
  | Fetch _ _ => Network
  end.

(** The event of the HTTP verb, for the five verbs that have one. *)
Definition verb_event (method : Method) : option CarrierHookEvent :=
  match method with
  | GET => Some EvGet
  | POST => Some EvPost
  | PUT => Some EvPut
  | DELETE => Some EvDelete
  | PATCH => Some EvPatch
  | HEAD | OPTIONS => None
  end.

(** The arguments of the verb event: the URL, and the data for the verbs
    that carry some. *)
Definition verb_args (method : Method) (o : CarrierOptions) : list JsArg :=
  match method with
  | GET => [ArgString (opt_url o)]
  | _ => [ArgString (opt_url o); ArgData (opt_data o)]
  end.

(** The steps of the verb event when every callback of [this] runs. *)
Definition verb_listeners (this : Carrier) (method : Method) : list Step :=
  match verb_event method with
  | Some event => map (Fired event) (listeners this event)
  | None => []
  end.

(** The events fired before the network call. *)
Definition fires_before_fetch (event : CarrierHookEvent) : Prop :=
  match event with
  | EvRequest | EvGet | EvPost | EvPut | EvDelete | EvPatch => True
  | EvResponse | EvOk | EvError => False
  end.

(** The event that closes a call, read off the recorded status. *)
Definition closing_event (this : Carrier) : CarrierHookEvent :=
  if in_success_range (status (container this)) then EvOk else EvError.

(** No network call among the observations. *)
Definition only_calls (t : list Obs) : Prop :=
  forall url init, Fetch url init ∉ t.

(** No call that ended with an exception among the observations. *)
Definition no_throw (t : list Obs) : Prop :=
  forall event cb args e, HookCall event cb args (Threw e) ∉ t.

(** What a stretch made of [trigger]s adds to the trace: calls only; all
    of them returned when the stretch returns, and when it throws the last
    one threw that exception, for an event in [among], and it is the only
    one that threw. *)
Definition hook_delta (among : CarrierHookEvent -> Prop) (o : Outcome unit)
    (t : list Obs) : Prop :=
  only_calls t /\
  match o with
  | Returned _ => no_throw t
  | Threw e =>
      exists earlier event cb args,
        t = earlier ++ [HookCall event cb args (Threw e)] /\
        no_throw earlier /\ among event
  end.

(** The [Authorization] header of every network call in a trace. *)
Definition authorization_sent (t : list Obs) : list (option string) :=
  omap (fun o => match o with
                 | Fetch _ init => Some (init_headers init !! "Authorization")
                 | HookCall _ _ _ _ => None
                 end) t.

(** ** Sample runs *)

Module Scenario.

(** A browser on the developer's machine. *)
Definition hostname : option string := Some "localhost".

Definition InvalidCharacterError : JsError :=
  {| err_name := "InvalidCharacterError";
     err_message := "The string to be encoded contains characters outside of the Latin1 range." |}.

Definition btoa (s : string) : Outcome string :=
  match Js.latin1 s with
  | Some bytes => Returned (Js.base64 bytes)
  | None => Threw InvalidCharacterError
  end.

(** The methods that every object inherits. *)
Definition object_methods : list string :=
  ["hasOwnProperty"; "isPrototypeOf"; "propertyIsEnumerable"; "toLocaleString";
   "toString"; "valueOf"; "__defineGetter__"; "__defineSetter__";
   "__lookupGetter__"; "__lookupSetter__"].

(** What an object literal inherits, read as a string: its constructor,
    the methods, and its prototype under [__proto__]. *)
Definition inherited (name : string) : option string :=
  if String.eqb name "constructor" then Some "function Object() { [native code] }"
  else if String.eqb name "__proto__" then Some "[object Object]"
  else if bool_decide (name ∈ object_methods)
  then Some ("function " +:+ name +:+ "() { [native code] }")
  else None.

(** A credential store with room. *)
Definition rejects (store : gmap string string) (key value : string) : option JsError :=
  None.

(** [JSON.stringify] on the values of the samples, whose references are
    functions: a function is left out of an object, stands as [null] in
    an array and gives [undefined] by itself; a BigInt makes it throw. *)
Fixpoint stringify (v : Json) : Outcome (option string) :=
  match v with
  | JNull => Returned (Some "null")
  | JBool b => Returned (Some (if b then "true" else "false"))
  | JNum n => Returned (Some (pretty n))
  | JStr s => Returned (Some (Js.quote s))
  | JArr items =>
      match (fix elements (l : list Json) : Outcome (list string) :=
               match l with
               | [] => Returned []
               | x :: rest =>
                   match stringify x with
                   | Threw e => Threw e
                   | Returned o =>
                       match elements rest with
                       | Threw e => Threw e
                       | Returned texts => Returned (default "null" o :: texts)
                       end
                   end
               end) items with
      | Threw e => Threw e
      | Returned texts => Returned (Some ("[" +:+ String.concat "," texts +:+ "]"))
      end
  | JObj fields =>
      match (fix members (l : list (string * Json)) : Outcome (list string) :=
               match l with
               | [] => Returned []
               | (k, x) :: rest =>
                   match stringify x with
                   | Threw e => Threw e
                   | Returned o =>
                       match members rest with
                       | Threw e => Threw e
                       | Returned texts =>
                           Returned (match o with
                                     | Some t => (Js.quote k +:+ ":" +:+ t) :: texts
                                     | None => texts
                                     end)
                       end
                   end
               end) fields with
      | Threw e => Threw e
      | Returned texts => Returned (Some ("{" +:+ String.concat "," texts +:+ "}"))
      end
  | JBigInt _ => Threw (TypeError "Do not know how to serialize a BigInt")
  | JOther _ => Returned None
  end.

Definition created : Response :=
  {| resp_status := 201; resp_json := Some (JObj [("id", JNum 7)]) |}.

Definition unavailable : Response :=
  {| resp_status := 503; resp_json := None |}.

(** A server that answers every request alike. *)
Definition fetch (url : string) (init : RequestInit) : Outcome Response :=
  Returned created.

Definition fetch_unavailable (url : string) (init : RequestInit) : Outcome Response :=
  Returned unavailable.

(** Three callbacks: one that throws, one that notes its visit in the
    credential store, one that only looks. *)
Definition callback (cb : CarrierHook) (args : list JsArg) (h : Heap)
    : Outcome unit * Heap :=
  match cb with
  | 0%nat => (Threw (Error "boom"), h)
  | 1%nat =>
      (Returned tt,
       {| self := self h; localStorage := <["seen" := "yes"]> (localStorage h);
          options := options h; elsewhere := elsewhere h |})
  | _ => (Returned tt, h)
  end.

Definition no_options : CarrierOptions := {|
  opt_method := None; opt_url := ""; opt_data := None; opt_headers := None;
  opt_useToken := None; opt_credentials := None; opt_auth := None;
|}.

Definition heap_of (this : Carrier) : Heap :=
  {| self := this; localStorage := ∅; options := no_options; elsewhere := JNull |}.

(** A client with a base URL, a token and observers on five events. *)
Definition observed : Carrier := {|
  container := {| data := JNull; status := 0; raw := None |};
  token := Some "T0K3N";
  baseUrl := "https://api.example";
  globalAuth := None;
  hooks := <[EvRequest := [1%nat]]> (<[EvPost := [2%nat]]>
           (<[EvResponse := [2%nat]]> (<[EvOk := [1%nat]]>
           (<[EvError := [2%nat]]> ∅))));
|}.

(** The same client with a global bearer strategy and no hooks. *)
Definition with_bearer : Carrier := {|
  container := {| data := JNull; status := 0; raw := None |};
  token := Some "T0K3N";
  baseUrl := "https://api.example";
  globalAuth := Some (AuthBearer "GLOBAL");
  hooks := ∅;
|}.

(** A client whose first [request] callback throws. *)
Definition fragile : Carrier := {|
  container := {| data := JNull; status := 0; raw := None |};
  token := None;
  baseUrl := "https://api.example";
  globalAuth := None;
  hooks := <[EvRequest := [0%nat; 1%nat]]> ∅;
|}.

Definition post_item : CarrierOptions := {|
  opt_method := Some POST; opt_url := "/items";
  opt_data := Some (JObj [("name", JStr "lamp")]); opt_headers := None;
  opt_useToken := None; opt_credentials := None; opt_auth := None;
|}.

Definition get_items : CarrierOptions := {|
  opt_method := None; opt_url := "/items"; opt_data := None; opt_headers := None;
  opt_useToken := None; opt_credentials := None; opt_auth := None;
|}.

(** A request that brings its own [Authorization] header. *)
Definition get_with_authorization : CarrierOptions := {|
  opt_method := None; opt_url := "/items"; opt_data := None;
  opt_headers := Some {["Authorization" := "Custom abc"]};
  opt_useToken := None; opt_credentials := None; opt_auth := None;
|}.

Definition profiles : gmap string string :=
  <["dev" := "http://localhost:8080"]> (<["prod" := "https://api.example"]> ∅).

(** An override for an environment that has no profile, with a token. *)
Definition staging : CarrierProfileConfig :=
  {| cfg_env := Some "staging"; cfg_profiles := profiles; cfg_token := Some "s3cret" |}.

(** No override: the environment comes from the host name. *)
Definition inferred : CarrierProfileConfig :=
  {| cfg_env := None; cfg_profiles := profiles; cfg_token := Some "s3cret" |}.

(** An override that is the empty string, and a profile under that key. *)
Definition empty_override : CarrierProfileConfig :=
  {| cfg_env := Some "";
     cfg_profiles := <["" := "https://blank.example"]> profiles;
     cfg_token := None |}.

Definition query_key : CarrierAuthConfig := AuthApiKey "api_key" "a b" InQuery.

(** An override that names what every object inherits, with a token. *)
Definition constructed : CarrierProfileConfig :=
  {| cfg_env := Some "constructor"; cfg_profiles := profiles;
     cfg_token := Some "s3cret" |}.

End Scenario.

(** ** The rest of the class *)

(** The argument of [configure]. *)
Record CarrierConfig := {
  conf_baseUrl : option string;
  conf_token : option string;
}.

Definition configure (rejects : gmap string string -> string -> string -> option JsError)
    (config : CarrierConfig) : M unit :=
  match Js.present (conf_baseUrl config) with
  | Some url => modify_self (with_baseUrl url)
  | None => ret tt
  end ;;;
  match Js.present (conf_token config) with
  | Some t =>
      modify_self (with_token (Some t)) ;;;
      setItem rejects "token" t
  | None => ret tt
  end.

(** The verb methods: [send] with the method fixed. *)
Module Verb.
Section Shortcuts.

Variable btoa : string -> Outcome string.
Variable stringify : Json -> Outcome (option string).
Variable fetch : string -> RequestInit -> Outcome Response.
Variable callback : CarrierHook -> list JsArg -> Heap -> Outcome unit * Heap.

(** The object literal [{ method, url, data }]. *)
Definition literal (method : Method) (url : string) (d : option Json) : CarrierOptions := {|
  opt_method := Some method; opt_url := url; opt_data := d; opt_headers := None;
  opt_useToken := None; opt_credentials := None; opt_auth := None;
|}.

Definition get (url : string) : M unit :=
  send btoa stringify fetch callback (literal GET url None).

Definition post (url : string) (d : option Json) : M unit :=
  send btoa stringify fetch callback (literal POST url d).

Definition put (url : string) (d : option Json) : M unit :=
  send btoa stringify fetch callback (literal PUT url d).

Definition delete (url : string) (d : option Json) : M unit :=
  send btoa stringify fetch callback (literal DELETE url d).

Definition patch (url : string) (d : option Json) : M unit :=
  send btoa stringify fetch callback (literal PATCH url d).

Definition head (url : string) : M unit :=
  send btoa stringify fetch callback (literal HEAD url None).

Definition options (url : string) : M unit :=
  send btoa stringify fetch callback (literal OPTIONS url None).

End Shortcuts.
End Verb.

(** *** A caller that configures the client *)

(** The calls of the configuration surface. *)
Inductive ConfigCall :=
  | CallConfigureProfiles (config : CarrierProfileConfig)
  | CallConfigure (config : CarrierConfig)
  | CallConfigureBaseUrl (url : string)
  | CallConfigureToken (t : string)
  | CallConfigureAuth (auth : CarrierAuthConfig)
  | CallSetToken (t : string)
  | CallOn (event : CarrierHookEvent) (cb : CarrierHook).

Section Caller.

Variable hostname : option string.
Variable inherited : string -> option string.
Variable rejects : gmap string string -> string -> string -> option JsError.

Definition perform (c : ConfigCall) : M unit :=
  match c with
  | CallConfigureProfiles config => configureProfiles hostname inherited rejects config
  | CallConfigure config => configure rejects config
  | CallConfigureBaseUrl url => configureBaseUrl url
  | CallConfigureToken t => configureToken rejects t
  | CallConfigureAuth auth => configureAuth auth
  | CallSetToken t => setToken rejects t
  | CallOn event cb => on event cb
  end.

(** The calls made one after the other; the caller goes on after a call
    that throws. *)
Fixpoint perform_all (cs : list ConfigCall) (w : World) : World :=
  match cs with
  | [] => w
  | c :: rest => perform_all rest (perform c w).2
  end.

End Caller.

(** The callbacks that the calls register for [event], in order. *)
Definition registrations (event : CarrierHookEvent) (cs : list ConfigCall)
    : list CarrierHook :=
  omap (fun c => match c with
                 | CallOn event' cb => if decide (event' = event) then Some cb else None
                 | _ => None
                 end) cs.

(** The token of the client is the one kept in the credential store. *)
Definition token_stored (h : Heap) : Prop :=
  forall t, token (self h) = Some t -> localStorage h !! "token" = Some t.

(** The header an auth configuration writes, if it writes one. *)
Definition auth_header (chosen : option CarrierAuthConfig) : option string :=
  match chosen with
  | Some (AuthBearer _) | Some (AuthBasic _ _) => Some "Authorization"
  | Some (AuthApiKey key _ InHeader) => Some key
  | Some (AuthApiKey _ _ InQuery) | None => None
  end.

(** The methods whose request has no body. *)
Definition bodiless (method : Method) : bool :=
  match method with
  | GET | HEAD => true
  | _ => false
  end.

(** No callback is registered for any event. *)
Definition no_listeners (this : Carrier) : Prop :=
  forall event, listeners this event = [].

(** The verb method of the class for each method; [get], [head] and
    [options] take no data. *)
Definition shortcut (btoa : string -> Outcome string)
    (stringify : Json -> Outcome (option string))
    (fetch : string -> RequestInit -> Outcome Response)
    (callback : CarrierHook -> list JsArg -> Heap -> Outcome unit * Heap)
    (method : Method) (url : string) (d : option Json) : M unit :=
  match method with
  | GET => Verb.get btoa stringify fetch callback url
  | POST => Verb.post btoa stringify fetch callback url d
  | PUT => Verb.put btoa stringify fetch callback url d
  | DELETE => Verb.delete btoa stringify fetch callback url d
  | PATCH => Verb.patch btoa stringify fetch callback url d
  | HEAD => Verb.head btoa stringify fetch callback url
  | OPTIONS => Verb.options btoa stringify fetch callback url
  end.

(** The value that [JSON.stringify] is given for the body. *)
Definition body_of (d : option Json) : Json :=
  if json_truthy d then default JNull d else JObj [].

(** ** The earlier versions of the class

    [carrier.ts] and the first version have neither hooks nor auth
    strategies: their [send] goes from the options straight to [fetch],
    and gives a body to every request but a GET. The client is kept in the
    same record; the two fields these versions do not have are left alone.
    Their [configureProfiles], [configure], [setToken], [ok] and [check]
    are those above. *)

Module Earlier.
Section Earlier.

Variable stringify : Json -> Outcome (option string).
Variable fetch : string -> RequestInit -> Outcome Response.

(** The headers object of [send] in [carrier.ts]: the token is written
    over whatever the caller gave. *)
Definition build_headers (this : Carrier) (opts : CarrierOptions) : gmap string string :=
  let method := default GET (opt_method opts) in
  let headers :=
    default ∅ (opt_headers opts) ∪
    (if bool_decide (method ≠ GET) then {["Content-Type" := "application/json"]} else ∅) in
  if bool_decide (opt_useToken opts ≠ Some false) && Js.truthy (token this)
  then <["Authorization" := "Bearer " +:+ default "" (token this)]> headers
  else headers.

(** The [body] property of the argument of [fetch]. *)
Definition request_body (opts : CarrierOptions) : Outcome (option string) :=
  if bool_decide (default GET (opt_method opts) ≠ GET)
  then stringify (if json_truthy (opt_data opts) then default JNull (opt_data opts)
                  else JObj [])
  else Returned None.

Definition request_init (method : Method) (headers : gmap string string)
    (o : CarrierOptions) (body : option string) : RequestInit := {|
  init_method := method;
  init_headers := headers;
  init_credentials := default CredSameOrigin (opt_credentials o);
  init_body := body;
|}.

Definition send (opts : CarrierOptions) : M unit :=
  let method := default GET (opt_method opts) in
  this <- gets id ;;
  let headers := build_headers this opts in
  body <- lift (request_body opts) ;;
  let init := request_init method headers opts body in
  emit (Fetch (baseUrl this +:+ opt_url opts) init) ;;;
  response <- lift (fetch (baseUrl this +:+ opt_url opts) init) ;;
  modify_self (set_status response) ;;;
  modify_self (set_raw response) ;;;
  modify_self (set_data (default JNull (resp_json response))).

Definition get (url : string) : M unit :=
  send {| opt_method := Some GET; opt_url := url; opt_data := None;
          opt_headers := None; opt_useToken := None; opt_credentials := None;
          opt_auth := None |}.

Definition post (url : string) (d : option Json) : M unit :=
  send {| opt_method := Some POST; opt_url := url; opt_data := d;
          opt_headers := None; opt_useToken := None; opt_credentials := None;
          opt_auth := None |}.

End Earlier.
End Earlier.

Module First.
Section First.

Variable stringify : Json -> Outcome (option string).
Variable fetch : string -> RequestInit -> Outcome Response.

(** The constructor of the first version: the base URL after the host
    (any host but [localhost], a missing [location] too, is production),
    the token from the credential store. *)
Definition constructor (hostname : option string) (stored : gmap string string) : Carrier := {|
  container := {| data := JNull; status := 0; raw := None |};
  token := stored !! "token";
  baseUrl := if bool_decide (hostname = Some "localhost")
             then "http://localhost:8080"
             else "https://mailenasistente.com";
  globalAuth := None;
  hooks := ∅;
|}.

(** The headers object of [send] in the first version: the content type
    for every method. *)
Definition build_headers (this : Carrier) (opts : CarrierOptions) : gmap string string :=
  let headers :=
    default ∅ (opt_headers opts) ∪ {["Content-Type" := "application/json"]} in
  if bool_decide (opt_useToken opts ≠ Some false) && Js.truthy (token this)
  then <["Authorization" := "Bearer " +:+ default "" (token this)]> headers
  else headers.

(** The [body] property of the argument of [fetch]. *)
Definition request_body (opts : CarrierOptions) : Outcome (option string) :=
  if bool_decide (default GET (opt_method opts) ≠ GET)
  then stringify (if json_truthy (opt_data opts) then default JNull (opt_data opts)
                  else JObj [])
  else Returned None.

Definition request_init (method : Method) (headers : gmap string string)
    (o : CarrierOptions) (body : option string) : RequestInit := {|
  init_method := method;
  init_headers := headers;
  init_credentials := default CredSameOrigin (opt_credentials o);
  init_body := body;
|}.

Definition send (opts : CarrierOptions) : M unit :=
  let method := default GET (opt_method opts) in
  this <- gets id ;;
  let headers := build_headers this opts in
  body <- lift (request_body opts) ;;
  let init := request_init method headers opts body in
  emit (Fetch (baseUrl this +:+ opt_url opts) init) ;;;
  response <- lift (fetch (baseUrl this +:+ opt_url opts) init) ;;
  modify_self (set_status response) ;;;
  modify_self (set_raw response) ;;;
  modify_self (set_data (default JNull (resp_json response))).

Definition get (url : string) : M unit :=
  send {| opt_method := Some GET; opt_url := url; opt_data := None;
          opt_headers := None; opt_useToken := None; opt_credentials := None;
          opt_auth := None |}.

Definition post (url : string) (d : option Json) : M unit :=
  send {| opt_method := Some POST; opt_url := url; opt_data := d;
          opt_headers := None; opt_useToken := None; opt_credentials := None;
          opt_auth := None |}.

End First.
End First.

(** What two runs have in common when they end alike, with the same
    client, the same credential store and the same trace. *)
Definition same_run (a b : Outcome unit * World) : Prop :=
  a.1 = b.1 /\ self (heap a.2) = self (heap b.2) /\
  localStorage (heap a.2) = localStorage (heap b.2) /\ trace a.2 = trace b.2.

(** *** More sample runs *)

Module Sample.

(** No network. *)
Definition fetch_offline (url : string) (init : RequestInit) : Outcome Response :=
  Threw (TypeError "Failed to fetch").

Definition no_content : Response := {| resp_status := 204; resp_json := None |}.

(** A server that answers with a status in the success range and no body. *)
Definition fetch_no_content (url : string) (init : RequestInit) : Outcome Response :=
  Returned no_content.

(** A client with one callback, which only looks, on two events. *)
Definition watched : Carrier := {|
  container := {| data := JStr "before"; status := 200; raw := None |};
  token := Some "T0K3N";
  baseUrl := "https://api.example";
  globalAuth := None;
  hooks := <[EvRequest := [2%nat]]> (<[EvResponse := [2%nat]]> ∅);
|}.

(** The argument of [fetch] for a request of [watched] without headers,
    data or auth of its own. *)
Definition plain_init (method : Method) : RequestInit := {|
  init_method := method;
  init_headers :=
    <["Authorization" := "Bearer T0K3N"]>
      (if bool_decide (method = GET) then ∅
       else {["Content-Type" := "application/json"]});
  init_credentials := CredSameOrigin;
  init_body := if bodiless method then None else Some "{}";
|}.

(** A request with headers of its own, the content type among them. *)
Definition get_csv : CarrierOptions := {|
  opt_method := None; opt_url := "/report"; opt_data := None;
  opt_headers := Some (<["Content-Type" := "text/csv"]> {["Authorization" := "Custom abc"]});
  opt_useToken := None; opt_credentials := None; opt_auth := None;
|}.

(** A client that is configured and nothing more. *)
Definition plain : Carrier := {|
  container := {| data := JNull; status := 0; raw := None |};
  token := Some "T0K3N";
  baseUrl := "https://api.example";
  globalAuth := None;
  hooks := ∅;
|}.

(** A credential store that takes nothing more. *)
Definition QuotaExceededError : JsError :=
  {| err_name := "QuotaExceededError";
     err_message := "The quota has been exceeded." |}.

Definition full (store : gmap string string) (key value : string) : option JsError :=
  Some QuotaExceededError.

(** A [post] whose data is a BigInt, and one whose data is a function. *)
Definition post_bigint : CarrierOptions := {|
  opt_method := Some POST; opt_url := "/items"; opt_data := Some (JBigInt 10);
  opt_headers := None; opt_useToken := None; opt_credentials := None;
  opt_auth := None;
|}.

Definition post_function : CarrierOptions := {|
  opt_method := Some POST; opt_url := "/items"; opt_data := Some (JOther 0);
  opt_headers := None; opt_useToken := None; opt_credentials := None;
  opt_auth := None;
|}.

(** A later session on the machine of the developer: the client of the
    first version, made over the credential store that [setToken] left. *)
Definition later_session (w : World) : Heap :=
  {| self := First.constructor (Some "localhost") (localStorage (heap w));
     localStorage := localStorage (heap w);
     options := options (heap w);
     elsewhere := elsewhere (heap w) |}.

End Sample.

(** ** Properties *)

(** *** Strings *)

Lemma append_nil (s : string) : "" +:+ s = s.
Proof. reflexivity. Qed.

Lemma append_cons (c : ascii) (a b : string) :
  String c a +:+ b = String c (a +:+ b).
Proof. reflexivity. Qed.

Lemma prefix_nil (s : string) : String.prefix "" s = true.
Proof. by destruct s. Qed.

Lemma prefix_cons (c d : ascii) (p s : string) :
  String.prefix (String c p) (String d s) =
  if Ascii.ascii_dec c d then String.prefix p s else false.
Proof. reflexivity. Qed.

Lemma prefix_append (p s : string) :
  String.prefix p s = true <-> exists rest, s = p +:+ rest.
Proof.
  revert s. induction p as [|c p IH]; intros s.
  - rewrite prefix_nil. split; [intros _; by exists s | done].
  - destruct s as [|d s].
    + split; [done | intros [rest Hrest]; discriminate].
    + rewrite prefix_cons. destruct (Ascii.ascii_dec c d) as [->|Hcd].
      * rewrite IH. split; intros [rest Hrest]; exists rest.
        -- by rewrite append_cons, Hrest.
        -- rewrite append_cons in Hrest. congruence.
      * split; [done | intros [rest Hrest]].
        rewrite append_cons in Hrest. congruence.
Qed.

Lemma includes_nil (piece : string) :
  Js.includes "" piece = String.prefix piece "" || false.
Proof. reflexivity. Qed.

Lemma includes_cons (c : ascii) (s piece : string) :
  Js.includes (String c s) piece =
  String.prefix piece (String c s) || Js.includes s piece.
Proof. reflexivity. Qed.

Lemma includes_contains (s piece : string) :
  Js.includes s piece = true <-> contains s piece.
Proof.
  unfold contains. induction s as [|c s IH].
  - rewrite includes_nil, orb_false_r, prefix_append. split.
    + intros [rest Hrest]. by exists "", rest.
    + intros [[|b before] [after Hs]]; [by exists after | discriminate].
  - rewrite includes_cons, orb_true_iff, IH, prefix_append. split.
    + intros [[rest Hrest] | (before & after & Hs)].
      * by exists "", rest.
      * exists (String c before), after. by rewrite append_cons, Hs.
    + intros [[|b before] [after Hs]].
      * left. by exists after.
      * right. exists before, after. rewrite append_cons in Hs. congruence.
Qed.

Lemma present_Some (o : option string) (s : string) :
  Js.present o = Some s <-> o = Some s /\ s <> "".
Proof.
  destruct o as [t|]; simpl; [|intuition congruence].
  destruct (String.eqb_spec t "") as [Ht|Ht]; intuition congruence.
Qed.

Lemma present_None (o : option string) :
  Js.present o = None <-> o = None \/ o = Some "".
Proof.
  destruct o as [t|]; simpl; [|intuition congruence].
  destruct (String.eqb_spec t "") as [Ht|Ht]; intuition congruence.
Qed.

Lemma or_else_Some (s : string) : Js.or_else (Some s) "" = s.
Proof.
  unfold Js.or_else. simpl. by destruct (String.eqb_spec s "") as [->|].
Qed.

Lemma assign_other (key value k : string) (object : gmap string string) :
  k <> key -> Js.assign key value object !! k = object !! k.
Proof.
  intros Hk. unfold Js.assign. destruct (_ && _); [done|].
  by apply lookup_insert_ne.
Qed.

Lemma assign_plain (key value : string) (object : gmap string string) :
  key <> "__proto__" -> Js.assign key value object = <[key := value]> object.
Proof.
  intros Hk. unfold Js.assign.
  by destruct (String.eqb_spec key "__proto__").
Qed.

Lemma assign_is_Some (key value k : string) (object : gmap string string) :
  is_Some (object !! k) -> is_Some (Js.assign key value object !! k).
Proof.
  intros Hk. unfold Js.assign. destruct (_ && _); [done|].
  destruct (decide (k = key)) as [->|Hne].
  - by rewrite lookup_insert_eq.
  - by rewrite lookup_insert_ne.
Qed.

Lemma encodeURIComponent_space (s : string) :
  Js.encodeURIComponent (String " " s) = "%20" +:+ Js.encodeURIComponent s.
Proof. reflexivity. Qed.

(** *** URL resolution *)

(** C5. A request path that starts with [http://] or [https://] is returned
    as it is, whatever the base URL, so resolving an absolute URL again
    changes nothing; any other path is appended to the base URL verbatim. *)
Theorem resolveUrl_absolute_or_relative (this other : Carrier) (requestUrl : string) :
  (absolute_url requestUrl ->
     resolveUrl this requestUrl = requestUrl /\
     resolveUrl other (resolveUrl this requestUrl) = resolveUrl this requestUrl) /\
  (~ absolute_url requestUrl ->
     resolveUrl this requestUrl = baseUrl this +:+ requestUrl).
Proof.
  assert (Habs : absolute_url requestUrl <->
                 Js.startsWith requestUrl "http://" || Js.startsWith requestUrl "https://" = true).
  { unfold absolute_url, Js.startsWith.
    rewrite orb_true_iff, !prefix_append. split.
    - intros [rest [H|H]]; [left|right]; by exists rest.
    - intros [[rest H]|[rest H]]; exists rest; [by left | by right]. }
  split.
  - intros H. assert (Hthis : resolveUrl this requestUrl = requestUrl).
    { unfold resolveUrl. apply Habs in H. by rewrite H. }
    split; [done|]. rewrite Hthis. unfold resolveUrl. apply Habs in H. by rewrite H.
  - intros H. unfold resolveUrl.
    destruct (Js.startsWith requestUrl "http://" || Js.startsWith requestUrl "https://") eqn:E.
    + exfalso. apply H, Habs. done.
    + by rewrite or_else_Some.
Qed.

(** *** Auth strategies *)

Section AuthProperties.

Variable btoa : string -> Outcome string.

Lemma applyAuth_chosen (this : Carrier) (headers : gmap string string)
    (auth : option CarrierAuthConfig) (url : option string) :
  applyAuth btoa this headers auth url =
  applyAuth btoa this headers (chosen_auth this auth) url.
Proof.
  destruct auth; [done|]. unfold applyAuth, chosen_auth.
  by destruct (globalAuth this).
Qed.

(** C7, amended. With an ApiKey configuration placed in the query and a URL
    that is not empty, [applyAuth] returns the URL followed by [&] when it
    has a [?] and by [?] when it has none, then [key=] and the
    percent-encoded value, and leaves the headers alone; a space is
    encoded as [%20]. *)
Theorem applyAuth_query_appends (this : Carrier) (headers : gmap string string)
    (auth : option CarrierAuthConfig) (key value url : string) :
  chosen_auth this auth = Some (AuthApiKey key value InQuery) ->
  url <> "" ->
  (exists separator,
     applyAuth btoa this headers auth (Some url) =
       Returned (headers, url +:+ separator +:+ key +:+ "=" +:+ Js.encodeURIComponent value) /\
     (contains url "?" -> separator = "&") /\
     (~ contains url "?" -> separator = "?")) /\
  (forall rest, Js.encodeURIComponent (String " " rest) = "%20" +:+ Js.encodeURIComponent rest).
Proof.
  intros Hchosen Hurl. split; [|apply encodeURIComponent_space].
  exists (if Js.includes url "?" then "&" else "?"). split.
  - rewrite applyAuth_chosen, Hchosen. unfold applyAuth. simpl.
    destruct (String.eqb_spec url "") as [|_]; [done|].
    rewrite or_else_Some. done.
  - split; intros H.
    + apply includes_contains in H. by rewrite H.
    + destruct (Js.includes url "?") eqn:E; [|done].
      exfalso. by apply H, includes_contains.
Qed.

(** C8. A per-request configuration is the one applied, whatever the
    global default is: the result does not depend on the client, and it is
    what the specification says of the variant of that configuration.
    Without a per-request configuration the global default is applied as
    if it had been given with the request, with the effect of its
    variant; with neither, the headers and the URL come back as they
    were. The effect of a variant is met on every call but two kinds: an
    ApiKey whose header is named [__proto__], and an ApiKey appended to an
    empty URL. *)
Theorem applyAuth_choice (this : Carrier) (headers : gmap string string)
    (url : option string) :
  (forall a other,
     applyAuth btoa this headers (Some a) url =
     applyAuth btoa other headers (Some a) url) /\
  (forall a u, unhindered a u ->
     applyAuth btoa this headers (Some a) (Some u) = specified_effect btoa a headers u) /\
  (forall g, globalAuth this = Some g ->
     applyAuth btoa this headers None url =
     applyAuth btoa this headers (Some g) url) /\
  (forall g u, globalAuth this = Some g -> unhindered g u ->
     applyAuth btoa this headers None (Some u) = specified_effect btoa g headers u) /\
  (globalAuth this = None ->
     forall u, applyAuth btoa this headers None (Some u) = Returned (headers, u)).
Proof.
  assert (Heffect : forall (anyone : Carrier) a u, unhindered a u ->
            applyAuth btoa anyone headers (Some a) (Some u)
            = specified_effect btoa a headers u).
  { intros anyone a u Hfree. unfold applyAuth, specified_effect.
    destruct a as [t|username password|key value [|]]; simpl in *.
    - by rewrite or_else_Some.
    - destruct (btoa _); [|done]. by rewrite or_else_Some.
    - by rewrite or_else_Some, assign_plain.
    - destruct (String.eqb_spec u "") as [|_]; [done|]. by rewrite or_else_Some. }
  split; [done|]. split; [by apply Heffect|]. split; [|split].
  - intros g Hg. by rewrite applyAuth_chosen; simpl; rewrite Hg.
  - intros g u Hg Hfree. rewrite <- (Heffect this) by done.
    by rewrite applyAuth_chosen; simpl; rewrite Hg.
  - intros Hg u. unfold applyAuth. rewrite Hg. by rewrite or_else_Some.
Qed.

Lemma applyAuth_keeps_authorization (this : Carrier)
    (headers : gmap string string) (auth : option CarrierAuthConfig)
    (url : option string) (applied : gmap string string * string) :
  writes_authorization (chosen_auth this auth) = false ->
  applyAuth btoa this headers auth url = Returned applied ->
  applied.1 !! "Authorization" = headers !! "Authorization".
Proof.
  unfold applyAuth.
  change (match auth with Some a => Some a | None => globalAuth this end)
    with (chosen_auth this auth).
  destruct (chosen_auth this auth) as [[t|u p|k v [|]]|]; simpl; try done.
  - intros Hk [= <-]. simpl. apply assign_other.
    intros <-. by rewrite String.eqb_refl in Hk.
  - intros _. destruct (Js.present url); by intros [= <-].
  - intros _. by intros [= <-].
Qed.

Lemma applyAuth_threw (this : Carrier) (headers : gmap string string)
    (auth : option CarrierAuthConfig) (url : option string) (e : JsError) :
  applyAuth btoa this headers auth url = Threw e ->
  exists s, btoa s = Threw e.
Proof.
  unfold applyAuth.
  destruct (match auth with Some a => Some a | None => globalAuth this end)
    as [[t|u p|k v [|]]|]; try done.
  - destruct (btoa (u +:+ ":" +:+ p)) as [encoded|e'] eqn:Hb; [done|].
    intros [= <-]. by eexists.
  - by destruct (Js.present url).
Qed.

End AuthProperties.

Lemma build_headers_explicit (this : Carrier) (opts : CarrierOptions)
    (headers : gmap string string) (value : string) :
  opt_headers opts = Some headers ->
  headers !! "Authorization" = Some value ->
  value <> "" ->
  build_headers this opts !! "Authorization" = Some value.
Proof.
  intros Hh Ha Hne. unfold build_headers. rewrite Hh. simpl.
  set (ct := if bool_decide (default GET (opt_method opts) ≠ GET) then _ else _).
  assert (Hu : (headers ∪ ct) !! "Authorization" = Some value)
    by by apply lookup_union_Some_l.
  rewrite Hu. simpl.
  destruct (String.eqb_spec value "") as [|_]; [done|].
  by rewrite andb_false_r.
Qed.

(** *** Profiles *)

Section ProfileProperties.

Variable hostname : option string.
Variable inherited : string -> option string.
Variable rejects : gmap string string -> string -> string -> option JsError.

Lemma inferEnv_tag (host : string) (w : World) :
  hostname = Some host ->
  inferEnv hostname w = (Returned (environment_tag host), w).
Proof.
  intros ->. unfold inferEnv, environment_tag.
  destruct (String.eqb_spec host "localhost") as [Heq|Hne].
  - by rewrite decide_True.
  - rewrite decide_False by done. by destruct (Js.includes host "qacore").
Qed.

Lemma resolves_to_run (config : CarrierProfileConfig) (env : string) (w : World) :
  resolves_to hostname config env ->
  match Js.present (cfg_env config) with
  | Some e => ret e
  | None => inferEnv hostname
  end w = (Returned env, w).
Proof.
  intros [[Henv Hne] | [Hblank (host & Hhost & ->)]].
  - by rewrite (proj2 (present_Some _ _) (conj Henv Hne)).
  - rewrite (proj2 (present_None _) Hblank). by apply inferEnv_tag.
Qed.

Lemma configureProfiles_run (config : CarrierProfileConfig) (env : string) (w : World) :
  resolves_to hostname config env ->
  configureProfiles hostname inherited rejects config w =
  (if negb (Js.holds (Js.get inherited (cfg_profiles config) env))
   then throw (Error ("No baseUrl found for environment: " +:+ env))
   else
     modify_self (with_baseUrl (Js.text (Js.get inherited (cfg_profiles config) env))) ;;;
     match Js.present (cfg_token config) with
     | Some t => setToken rejects t
     | None => ret tt
     end) w.
Proof.
  intros H. unfold configureProfiles, bind at 1.
  by rewrite (resolves_to_run _ _ _ H).
Qed.

Lemma get_no_profile (profiles : gmap string string) (env : string) :
  no_profile inherited profiles env ->
  Js.holds (Js.get inherited profiles env) = false.
Proof.
  unfold Js.get. intros [Hown | [Hown Hnone]]; rewrite Hown; [done|].
  by rewrite Hnone.
Qed.

Lemma get_own (profiles : gmap string string) (env url : string) :
  profiles !! env = Some url -> url <> "" ->
  Js.holds (Js.get inherited profiles env) = true /\
  Js.text (Js.get inherited profiles env) = url.
Proof.
  unfold Js.get. intros -> Hne. simpl.
  by destruct (String.eqb_spec url "").
Qed.

(** What [setToken] does, by the answer of the credential store. *)
Lemma setToken_run (t : string) (w : World) :
  setToken rejects t w =
  match rejects (localStorage (heap w)) "token" t with
  | Some e =>
      (Threw e,
       {| heap := {| self := with_token (Some t) (self (heap w));
                     localStorage := localStorage (heap w);
                     options := options (heap w);
                     elsewhere := elsewhere (heap w) |};
          trace := trace w |})
  | None =>
      (Returned tt,
       {| heap := {| self := with_token (Some t) (self (heap w));
                     localStorage := <["token" := t]> (localStorage (heap w));
                     options := options (heap w);
                     elsewhere := elsewhere (heap w) |};
          trace := trace w |})
  end.
Proof.
  unfold setToken, setItem, bind, modify_self, modify_heap. simpl.
  by destruct (rejects _ _ _).
Qed.

(** C3, amended. The environment is the explicit override when it is there
    and not empty, otherwise the tag inferred from the host name. When the
    profiles give nothing for it, neither a URL of their own that is not
    empty nor, failing one of their own, an inherited property of that
    name, [configureProfiles] throws an error whose message ends with the
    name of that environment. When the profiles hold a URL for it that is
    not empty, that URL becomes the base URL, and a supplied token that is
    not empty is stored in the client and then in the credential store;
    the call returns unless the store refuses the token, and then it
    throws what the store threw. *)
Theorem configureProfiles_resolves (config : CarrierProfileConfig) (env : string)
    (w : World) :
  resolves_to hostname config env ->
  (no_profile inherited (cfg_profiles config) env ->
     (configureProfiles hostname inherited rejects config w).1 =
       Threw (Error ("No baseUrl found for environment: " +:+ env))) /\
  (forall url, cfg_profiles config !! env = Some url -> url <> "" ->
     exists o w',
       configureProfiles hostname inherited rejects config w = (o, w') /\
       baseUrl (self (heap w')) = url /\
       (blank (cfg_token config) ->
          o = Returned tt /\
          token (self (heap w')) = token (self (heap w)) /\
          localStorage (heap w') = localStorage (heap w)) /\
       (forall t, cfg_token config = Some t -> t <> "" ->
          token (self (heap w')) = Some t /\
          match rejects (localStorage (heap w)) "token" t with
          | None => o = Returned tt /\ localStorage (heap w') !! "token" = Some t
          | Some e => o = Threw e /\ localStorage (heap w') = localStorage (heap w)
          end)).
Proof.
  intros Henv. rewrite (configureProfiles_run _ _ _ Henv). split.
  - intros Hnone. by rewrite (get_no_profile _ _ Hnone).
  - intros url Hurl Hne. destruct (get_own _ _ _ Hurl Hne) as [-> ->]. simpl.
    destruct (Js.present (cfg_token config)) as [t|] eqn:Htok.
    + apply present_Some in Htok as [Htok Htne].
      unfold bind, modify_self, modify_heap. rewrite setToken_run. simpl.
      destruct (rejects (localStorage (heap w)) "token" t) as [e|] eqn:Hstore;
        eexists _, _; (split; [reflexivity|]); simpl; (split; [done|]); split.
      * intros [Hb|Hb]; congruence.
      * intros t' Ht' _. assert (t' = t) as -> by congruence.
        by rewrite Hstore.
      * intros [Hb|Hb]; congruence.
      * intros t' Ht' _. assert (t' = t) as -> by congruence.
        rewrite Hstore. by rewrite lookup_insert_eq.
    + apply present_None in Htok.
      eexists _, _. split; [reflexivity|]. simpl. split; [done|]. split.
      * done.
      * intros t' Ht' Hne'. destruct Htok; congruence.
Qed.


End ProfileProperties.

(** *** The monad *)

Lemma bind_assoc {A B C} (m : M A) (f : A -> M B) (g : B -> M C) (w : World) :
  bind (bind m f) g w = bind m (fun a => bind (f a) g) w.
Proof. unfold bind. by destruct (m w) as [[a|e] w1]. Qed.

Lemma only_calls_calls (event : CarrierHookEvent) (args : list JsArg)
    (cbs : list CarrierHook) :
  only_calls (calls event args cbs).
Proof.
  intros url init Hin. unfold calls in Hin.
  apply list_elem_of_fmap in Hin as (cb & Heq & _). discriminate.
Qed.

Lemma only_calls_app (t1 t2 : list Obs) :
  only_calls t1 -> only_calls t2 -> only_calls (t1 ++ t2).
Proof.
  intros H1 H2 url init Hin. apply elem_of_app in Hin as [Hin|Hin].
  - by apply (H1 url init).
  - by apply (H2 url init).
Qed.

Lemma only_calls_nil : only_calls [].
Proof. intros url init Hin. by apply not_elem_of_nil in Hin. Qed.

Lemma no_throw_calls (event : CarrierHookEvent) (args : list JsArg)
    (cbs : list CarrierHook) :
  no_throw (calls event args cbs).
Proof.
  intros ev cb a e Hin. unfold calls in Hin.
  apply list_elem_of_fmap in Hin as (cb' & Heq & _). discriminate.
Qed.

Lemma no_throw_app (t1 t2 : list Obs) :
  no_throw t1 -> no_throw t2 -> no_throw (t1 ++ t2).
Proof.
  intros H1 H2 ev cb a e Hin. apply elem_of_app in Hin as [Hin|Hin].
  - by apply (H1 ev cb a e).
  - by apply (H2 ev cb a e).
Qed.

Lemma no_throw_nil : no_throw [].
Proof. intros ev cb a e Hin. by apply not_elem_of_nil in Hin. Qed.

Lemma no_throw_fetch (url : string) (init : RequestInit) :
  no_throw [Fetch url init].
Proof.
  intros ev cb a e Hin. apply list_elem_of_singleton in Hin. discriminate.
Qed.

Lemma only_calls_call (event : CarrierHookEvent) (cb : CarrierHook)
    (args : list JsArg) (result : Outcome unit) :
  only_calls [HookCall event cb args result].
Proof.
  intros url init Hin. apply list_elem_of_singleton in Hin. discriminate.
Qed.

Lemma hook_delta_weaken (among among' : CarrierHookEvent -> Prop)
    (o : Outcome unit) (t : list Obs) :
  (forall event, among event -> among' event) ->
  hook_delta among o t -> hook_delta among' o t.
Proof.
  intros Himp [Hcalls Hshape]. split; [done|].
  destruct o as [[]|e]; [done|].
  destruct Hshape as (earlier & event & cb & args & -> & Hno & Hev).
  exists earlier, event, cb, args. auto.
Qed.

Lemma hook_delta_app (among : CarrierHookEvent -> Prop) (o : Outcome unit)
    (t1 t2 : list Obs) :
  hook_delta among (Returned tt) t1 -> hook_delta among o t2 ->
  hook_delta among o (t1 ++ t2).
Proof.
  intros [Hc1 Hn1] [Hc2 Hshape]. split; [by apply only_calls_app|].
  destruct o as [[]|e]; [by apply no_throw_app|].
  destruct Hshape as (earlier & event & cb & args & -> & Hno & Hev).
  exists (t1 ++ earlier), event, cb, args.
  rewrite <- app_assoc. split; [done|]. split; [by apply no_throw_app | done].
Qed.

Lemma hook_delta_nil (among : CarrierHookEvent -> Prop) :
  hook_delta among (Returned tt) [].
Proof. split; [apply only_calls_nil | apply no_throw_nil]. Qed.

(** *** Hooks *)

Section HookProperties.

Variable callback : CarrierHook -> list JsArg -> Heap -> Outcome unit * Heap.

Lemma invoke_run (event : CarrierHookEvent) (args : list JsArg) (cb : CarrierHook)
    (w : World) :
  invoke callback event args cb w =
  ((callback cb args (heap w)).1,
   {| heap := (callback cb args (heap w)).2;
      trace := trace w ++ [HookCall event cb args (callback cb args (heap w)).1] |}).
Proof. reflexivity. Qed.

(** What a [forEach] over callbacks leaves in the trace: the calls of all
    of them when it returns, and when it throws the calls up to the one
    that threw, with none of those behind it. *)
Lemma forEach_trace (event : CarrierHookEvent) (args : list JsArg)
    (cbs : list CarrierHook) (w w' : World) (o : Outcome unit) :
  forEach cbs (invoke callback event args) w = (o, w') ->
  match o with
  | Returned _ => trace w' = trace w ++ calls event args cbs
  | Threw e =>
      exists before cb after,
        cbs = before ++ cb :: after /\
        trace w' = trace w ++ calls event args before
                     ++ [HookCall event cb args (Threw e)]
  end.
Proof.
  revert w. induction cbs as [|cb rest IH]; intros w Hrun.
  - injection Hrun as <- <-. simpl. by rewrite app_nil_r.
  - simpl in Hrun. unfold bind in Hrun. rewrite invoke_run in Hrun.
    destruct (callback cb args (heap w)) as [[[]|e] h1] eqn:Hcb; simpl in Hrun.
    + apply IH in Hrun. simpl in Hrun. destruct o as [[]|e].
      * rewrite Hrun. simpl. by rewrite <- app_assoc.
      * destruct Hrun as (before & cb' & after & -> & ->).
        exists (cb :: before), cb', after. simpl.
        by rewrite <- !app_assoc.
    + injection Hrun as <- <-. by exists [], cb, rest.
Qed.

Lemma forEach_preserves {X} (part : Heap -> X) (event : CarrierHookEvent)
    (args : list JsArg) (cbs : list CarrierHook) (w : World) :
  (forall cb, cb ∈ cbs -> preserves callback part cb) ->
  hooks (self (heap (forEach cbs (invoke callback event args) w).2)) =
    hooks (self (heap w)) /\
  part (heap (forEach cbs (invoke callback event args) w).2) = part (heap w).
Proof.
  revert w. induction cbs as [|cb rest IH]; intros w Hall; [done|].
  simpl. unfold bind. rewrite invoke_run.
  destruct (Hall cb (list_elem_of_here _ _) args (heap w)) as [Hhooks Hpart].
  destruct (callback cb args (heap w)) as [[[]|e] h1] eqn:Hcb; simpl in *.
  - destruct (IH {| heap := h1;
                    trace := trace w ++ [HookCall event cb args (Returned tt)] |})
      as [IH1 IH2].
    { intros cb' Hin. apply Hall. by apply list_elem_of_further. }
    simpl in *. split; congruence.
  - done.
Qed.

Lemma trigger_run (event : CarrierHookEvent) (args : list JsArg) (w : World) :
  trigger callback event args w =
  forEach (listeners (self (heap w)) event) (invoke callback event args) w.
Proof.
  unfold trigger, listeners, bind, gets.
  by destruct (hooks (self (heap w)) !! event).
Qed.

Lemma trigger_trace (event : CarrierHookEvent) (args : list JsArg)
    (w w' : World) (o : Outcome unit) :
  trigger callback event args w = (o, w') ->
  match o with
  | Returned _ =>
      trace w' = trace w ++ calls event args (listeners (self (heap w)) event)
  | Threw e =>
      exists before cb after,
        listeners (self (heap w)) event = before ++ cb :: after /\
        trace w' = trace w ++ calls event args before
                     ++ [HookCall event cb args (Threw e)]
  end.
Proof. rewrite trigger_run. apply forEach_trace. Qed.

Lemma trigger_delta (event : CarrierHookEvent) (args : list JsArg)
    (w w' : World) (o : Outcome unit) :
  trigger callback event args w = (o, w') ->
  exists t, trace w' = trace w ++ t /\ hook_delta (eq event) o t.
Proof.
  intros Hrun. apply trigger_trace in Hrun. destruct o as [[]|e].
  - eexists. split; [exact Hrun|].
    split; [apply only_calls_calls | apply no_throw_calls].
  - destruct Hrun as (before & cb & after & _ & Htrace).
    eexists. split; [exact Htrace|]. split.
    + apply only_calls_app; [apply only_calls_calls | apply only_calls_call].
    + exists (calls event args before), event, cb, args.
      split; [done|]. split; [apply no_throw_calls | done].
Qed.

Lemma registered_listener (this : Carrier) (event : CarrierHookEvent)
    (cb : CarrierHook) :
  cb ∈ listeners this event -> registered this cb.
Proof.
  unfold listeners. intros Hin.
  destruct (hooks this !! event) as [cbs|] eqn:Hev; simpl in Hin.
  - by exists event, cbs.
  - by apply not_elem_of_nil in Hin.
Qed.

Lemma callbacks_preserve_hooks {X} (part : Heap -> X) (this this' : Carrier) :
  hooks this' = hooks this ->
  callbacks_preserve callback part this ->
  callbacks_preserve callback part this'.
Proof.
  intros Hhooks Hall cb (event & cbs & Hev & Hin). apply Hall.
  exists event, cbs. by rewrite <- Hhooks.
Qed.

Lemma trigger_preserves {X} (part : Heap -> X) (event : CarrierHookEvent)
    (args : list JsArg) (w : World) :
  callbacks_preserve callback part (self (heap w)) ->
  hooks (self (heap (trigger callback event args w).2)) = hooks (self (heap w)) /\
  part (heap (trigger callback event args w).2) = part (heap w).
Proof.
  intros Hall. rewrite trigger_run. apply forEach_preserves.
  intros cb Hin. by apply Hall, (registered_listener _ event).
Qed.

End HookProperties.

(** *** The dispatcher *)

Section DispatchProperties.

Variable btoa : string -> Outcome string.
Variable stringify : Json -> Outcome (option string).
Variable fetch : string -> RequestInit -> Outcome Response.
Variable callback : CarrierHook -> list JsArg -> Heap -> Outcome unit * Heap.

Local Opaque trigger applyAuth resolveUrl build_headers.

Lemma fire_verb_run (method : Method) (w : World) :
  fire_verb callback method w =
  match verb_event method with
  | Some event => trigger callback event (verb_args method (options (heap w))) w
  | None => (Returned tt, w)
  end.
Proof.
  unfold fire_verb, when, bind, get_options, ret.
  destruct method; simpl; try reflexivity;
    match goal with
    | |- context [trigger callback ?ev ?args ?w0] =>
        by destruct (trigger callback ev args w0) as [[[]|e] w1]
    end.
Qed.

(** [send] read off stretch by stretch: the world in which each stretch
    starts, and the exits through an exception. *)
Lemma send_stretches (opts : CarrierOptions) (w : World) :
  send btoa stringify fetch callback opts w =
  let method := default GET (opt_method opts) in
  let headers := build_headers (self (heap w)) opts in
  let w0 := {| heap := with_options opts (heap w); trace := trace w |} in
  match trigger callback EvRequest [ArgOptions] w0 with
  | (Threw e, w1) => (Threw e, w1)
  | (Returned _, w1) =>
      match fire_verb callback method w1 with
      | (Threw e, w2) => (Threw e, w2)
      | (Returned _, w2) =>
          let this := self (heap w2) in
          let o := options (heap w2) in
          match applyAuth btoa this headers (opt_auth o)
                  (Some (resolveUrl this (opt_url o))) with
          | Threw e => (Threw e, w2)
          | Returned applied =>
              match request_body stringify method o with
              | Threw e => (Threw e, w2)
              | Returned body =>
                  let init := request_init method applied.1 o body in
                  let wf := {| heap := heap w2;
                               trace := trace w2 ++ [Fetch applied.2 init] |} in
                  match fetch applied.2 init with
                  | Threw e => (Threw e, wf)
                  | Returned r => notify callback r (recorded r wf)
                  end
              end
          end
      end
  end.
Proof.
  cbv zeta.
  unfold send, notify, recorded, envelope_of, request_init, request_body, when,
    bind, gets, get_options, modify_self, modify_heap, emit, lift, ret.
  simpl.
  destruct (trigger callback EvRequest [ArgOptions] _) as [[[]|e] w1]; [|done].
  rewrite fire_verb_run.
  destruct (default GET (opt_method opts)); simpl;
    repeat match goal with
    | |- context [trigger callback ?ev ?args w1] =>
        destruct (trigger callback ev args w1) as [[[]|?] ?]; simpl
    end; try reflexivity;
    match goal with
    | |- context [applyAuth btoa ?this ?h ?a ?u] =>
        destruct (applyAuth btoa this h a u) as [applied|?]; simpl
    end; try reflexivity;
    try match goal with
    | |- context [stringify ?v] => destruct (stringify v) as [body|?]; simpl
    end; try reflexivity;
    match goal with
    | |- context [fetch ?u ?i] => destruct (fetch u i) as [r|?]; simpl
    end; reflexivity.
Qed.

(** **** Stretch by stretch *)

Lemma notify_run (r : Response) (w : World) :
  notify callback r w =
  match trigger callback EvResponse [ArgResponse r] w with
  | (Threw e, w1) => (Threw e, w1)
  | (Returned _, w1) =>
      trigger callback (closing_event (self (heap w1))) [ArgResponse r] w1
  end.
Proof.
  unfold notify, bind, gets, closing_event, ok, in_success_range.
  destruct (trigger callback EvResponse [ArgResponse r] w) as [[[]|e] w1]; [|done].
  by destruct (_ && _).
Qed.

Lemma trigger_keeps {X} (part : Heap -> X) (event : CarrierHookEvent)
    (args : list JsArg) (w w' : World) (o : Outcome unit) :
  callbacks_preserve callback part (self (heap w)) ->
  trigger callback event args w = (o, w') ->
  part (heap w') = part (heap w) /\
  hooks (self (heap w')) = hooks (self (heap w)) /\
  callbacks_preserve callback part (self (heap w')).
Proof.
  intros Hall Hrun.
  destruct (trigger_preserves callback part event args w Hall) as [Hhooks Hpart].
  rewrite Hrun in Hhooks, Hpart. simpl in *.
  split; [done|]. split; [done|].
  by apply (callbacks_preserve_hooks callback part (self (heap w))).
Qed.

Lemma fire_verb_keeps {X} (part : Heap -> X) (method : Method)
    (w w' : World) (o : Outcome unit) :
  callbacks_preserve callback part (self (heap w)) ->
  fire_verb callback method w = (o, w') ->
  part (heap w') = part (heap w) /\
  hooks (self (heap w')) = hooks (self (heap w)) /\
  callbacks_preserve callback part (self (heap w')).
Proof.
  intros Hall. rewrite fire_verb_run.
  destruct (verb_event method) as [event|].
  - by apply trigger_keeps.
  - by intros [= <- <-].
Qed.

Lemma notify_keeps {X} (part : Heap -> X) (r : Response)
    (w w' : World) (o : Outcome unit) :
  callbacks_preserve callback part (self (heap w)) ->
  notify callback r w = (o, w') ->
  part (heap w') = part (heap w) /\
  hooks (self (heap w')) = hooks (self (heap w)) /\
  callbacks_preserve callback part (self (heap w')).
Proof.
  intros Hall. rewrite notify_run.
  destruct (trigger callback EvResponse [ArgResponse r] w) as [[[]|e] w1] eqn:E1;
    apply (trigger_keeps part) in E1 as (Hp1 & Hh1 & Hall1); try done.
  - intros E2. apply (trigger_keeps part) in E2 as (Hp2 & Hh2 & Hall2); [|done].
    split; [congruence|]. split; [congruence|done].
  - by intros [= <- <-].
Qed.

Lemma step_of_calls (event : CarrierHookEvent) (args : list JsArg)
    (cbs : list CarrierHook) :
  map step_of (calls event args cbs) = map (Fired event) cbs.
Proof. unfold calls. rewrite map_map. done. Qed.

Lemma listeners_hooks (this this' : Carrier) (event : CarrierHookEvent) :
  hooks this' = hooks this -> listeners this' event = listeners this event.
Proof. unfold listeners. by intros ->. Qed.

Lemma verb_listeners_hooks (this this' : Carrier) (method : Method) :
  hooks this' = hooks this -> verb_listeners this' method = verb_listeners this method.
Proof.
  unfold verb_listeners. intros H.
  destruct (verb_event method); [|done]. by rewrite (listeners_hooks _ _ _ H).
Qed.

Lemma fire_verb_returned (method : Method) (w w' : World) :
  fire_verb callback method w = (Returned tt, w') ->
  exists t, trace w' = trace w ++ t /\
            only_calls t /\
            map step_of t = verb_listeners (self (heap w)) method.
Proof.
  rewrite fire_verb_run. unfold verb_listeners.
  destruct (verb_event method) as [event|].
  - intros Hrun. apply trigger_trace in Hrun.
    eexists. split; [exact Hrun|].
    split; [apply only_calls_calls | apply step_of_calls].
  - intros [= <-]. exists []. rewrite app_nil_r.
    split; [done|]. split; [apply only_calls_nil | done].
Qed.

Lemma notify_returned (r : Response) (w w' : World) :
  notify callback r w = (Returned tt, w') ->
  exists w1,
    trigger callback EvResponse [ArgResponse r] w = (Returned tt, w1) /\
    trigger callback (closing_event (self (heap w1))) [ArgResponse r] w1 =
      (Returned tt, w').
Proof.
  rewrite notify_run.
  destruct (trigger callback EvResponse [ArgResponse r] w) as [[[]|e] w1];
    [|done].
  intros Hrun. by exists w1.
Qed.

Lemma request_body_threw (method : Method) (o : CarrierOptions) (e : JsError) :
  request_body stringify method o = Threw e -> exists v, stringify v = Threw e.
Proof.
  unfold request_body. destruct (_ && _); [|done]. intros H. by eexists.
Qed.

(** A call that returns went through every stretch. *)
Lemma send_returned (opts : CarrierOptions) (w w' : World) :
  send btoa stringify fetch callback opts w = (Returned tt, w') ->
  let method := default GET (opt_method opts) in
  let headers := build_headers (self (heap w)) opts in
  let w0 := {| heap := with_options opts (heap w); trace := trace w |} in
  exists w1 w2 applied body r,
    trigger callback EvRequest [ArgOptions] w0 = (Returned tt, w1) /\
    fire_verb callback method w1 = (Returned tt, w2) /\
    applyAuth btoa (self (heap w2)) headers (opt_auth (options (heap w2)))
      (Some (resolveUrl (self (heap w2)) (opt_url (options (heap w2)))))
      = Returned applied /\
    request_body stringify method (options (heap w2)) = Returned body /\
    fetch applied.2 (request_init method applied.1 (options (heap w2)) body)
      = Returned r /\
    notify callback r
      (recorded r
         {| heap := heap w2;
            trace := trace w2 ++
              [Fetch applied.2
                 (request_init method applied.1 (options (heap w2)) body)] |})
      = (Returned tt, w').
Proof.
  rewrite send_stretches. cbv zeta.
  destruct (trigger callback EvRequest [ArgOptions] _) as [[[]|e1] w1] eqn:E1;
    [|done].
  destruct (fire_verb callback _ w1) as [[[]|e2] w2] eqn:E2; [|done].
  destruct (applyAuth btoa _ _ _ _) as [applied|e3] eqn:E3; [|done].
  destruct (request_body stringify _ _) as [body|e6] eqn:E6; [|done].
  destruct (fetch _ _) as [r|e4] eqn:E4; [|done].
  intros E5. exists w1, w2, applied, body, r. repeat split; assumption.
Qed.

(** **** The frame of [send] *)

(** C9. When no registered callback changes the client, [send] leaves the
    token, the base URL, the global auth strategy and the hook table as
    they were, whether it returns or throws and whatever the status of
    the response. *)
Theorem send_frame (opts : CarrierOptions) (w : World) :
  callbacks_preserve callback self (self (heap w)) ->
  configuration (self (heap (send btoa stringify fetch callback opts w).2)) =
  configuration (self (heap w)).
Proof.
  intros Hall. rewrite send_stretches. cbv zeta.
  destruct (trigger callback EvRequest [ArgOptions] _) as [o1 w1] eqn:E1.
  apply (trigger_keeps self) in E1 as (Hs1 & _ & Hall1); [|done].
  simpl in Hs1. destruct o1 as [[]|e1]; [|simpl; by rewrite Hs1].
  destruct (fire_verb callback _ w1) as [o2 w2] eqn:E2.
  apply (fire_verb_keeps self) in E2 as (Hs2 & _ & Hall2); [|done].
  destruct o2 as [[]|e2]; [|simpl; by rewrite Hs2, Hs1].
  destruct (applyAuth btoa _ _ _ _) as [applied|e3]; [|simpl; by rewrite Hs2, Hs1].
  destruct (request_body stringify _ _) as [body|e6]; [|simpl; by rewrite Hs2, Hs1].
  destruct (fetch _ _) as [r|e4]; [|simpl; by rewrite Hs2, Hs1].
  destruct (notify callback r _) as [o5 w5] eqn:E5.
  apply (notify_keeps self) in E5 as (Hs5 & _ & _).
  - simpl in *. by rewrite Hs5, Hs2, Hs1.
  - apply (callbacks_preserve_hooks callback self (self (heap w2))); done.
Qed.

(** **** The order of the hooks *)

(** C4. In a call that returns, the callbacks of [request] run first, in
    registration order and once each, then those of the verb event (for
    GET, POST, PUT, DELETE and PATCH), then comes the network call, then
    the callbacks of [response], then those of one event, [ok] or [error],
    chosen by the recorded status. Each event runs the callbacks
    registered when it fires: in the world [w1] the [request] callbacks
    left for the verb event, in the world [w2] that holds the recorded
    response for [response], in the world [w3] the [response] callbacks
    left for the closing event. When no callback registers another one or
    overwrites the status, these are the callbacks registered when the
    call started, and the closing event is [ok] exactly when the status
    of the response is in [200, 300). *)
Theorem send_hook_order (opts : CarrierOptions) (w w' : World) :
  send btoa stringify fetch callback opts w = (Returned tt, w') ->
  let this := self (heap w) in
  let method := default GET (opt_method opts) in
  exists before url init r after,
    trace w' = trace w ++ before ++ Fetch url init :: after /\
    fetch url init = Returned r /\
    (exists w1 w2 w3,
       trigger callback EvRequest [ArgOptions]
         {| heap := with_options opts (heap w); trace := trace w |}
         = (Returned tt, w1) /\
       container (self (heap w2)) = envelope_of r /\
       trigger callback EvResponse [ArgResponse r] w2 = (Returned tt, w3) /\
       map step_of before =
         map (Fired EvRequest) (listeners this EvRequest) ++
         verb_listeners (self (heap w1)) method /\
       map step_of after =
         map (Fired EvResponse) (listeners (self (heap w2)) EvResponse) ++
         map (Fired (closing_event (self (heap w3))))
           (listeners (self (heap w3)) (closing_event (self (heap w3))))) /\
    (callbacks_preserve callback (fun h => status (container (self h))) this ->
       let closing := if in_success_range (resp_status r) then EvOk else EvError in
       map step_of before =
         map (Fired EvRequest) (listeners this EvRequest) ++
         verb_listeners this method /\
       map step_of after =
         map (Fired EvResponse) (listeners this EvResponse) ++
         map (Fired closing) (listeners this closing) /\
       status (container (self (heap w'))) = resp_status r).
Proof.
  intros Hrun. apply send_returned in Hrun. cbv zeta in Hrun.
  destruct Hrun as (w1 & w2 & applied & body & r & E1 & E2 & E3 & _ & E4 & E5).
  apply notify_returned in E5 as (w3 & E5 & E6).
  pose proof (trigger_trace _ _ _ _ _ _ E1) as T1. simpl in T1.
  destruct (fire_verb_returned _ _ _ E2) as (tv & T2 & _ & Sv).
  pose proof (trigger_trace _ _ _ _ _ _ E5) as T5. simpl in T5.
  pose proof (trigger_trace _ _ _ _ _ _ E6) as T6. simpl in T6.
  cbv zeta.
  exists (calls EvRequest [ArgOptions] (listeners (self (heap w)) EvRequest) ++ tv).
  eexists _, _, r.
  exists (calls EvResponse [ArgResponse r]
            (listeners (with_container (envelope_of r) (self (heap w2))) EvResponse)
          ++ calls (closing_event (self (heap w3))) [ArgResponse r]
               (listeners (self (heap w3)) (closing_event (self (heap w3))))).
  split; [|split; [exact E4|]; split].
  - rewrite T6, T5, T2, T1. rewrite <- !app_assoc. simpl. done.
  - eexists w1, _, w3. split; [exact E1|]. split; [|split; [exact E5|]].
    + reflexivity.
    + rewrite !map_app, !step_of_calls, Sv. done.
  - intros Hall.
    apply (trigger_keeps (fun h => status (container (self h)))) in E1
      as (_ & Hh1 & Hall1); [|done].
    apply (fire_verb_keeps (fun h => status (container (self h)))) in E2
      as (_ & Hh2 & Hall2); [|done].
    apply (trigger_keeps (fun h => status (container (self h)))) in E5
      as (Hs5 & Hh5 & Hall5).
    2:{ apply (callbacks_preserve_hooks _ _ (self (heap w2))); done. }
    apply (trigger_keeps (fun h => status (container (self h)))) in E6
      as (Hs6 & Hh6 & _); [|done].
    simpl in *.
    assert (Hc : closing_event (self (heap w3)) =
                 if in_success_range (resp_status r) then EvOk else EvError).
    { unfold closing_event. by rewrite Hs5. }
    rewrite !map_app, !step_of_calls, Sv, Hc.
    rewrite (verb_listeners_hooks (self (heap w)) (self (heap w1))) by congruence.
    rewrite (listeners_hooks (self (heap w)) (with_container _ _)) by (simpl; congruence).
    rewrite (listeners_hooks (self (heap w)) (self (heap w3))) by congruence.
    repeat split. congruence.
Qed.

(** **** What a call leaves in the trace *)

Lemma fires_before_fetch_verb (method : Method) (event : CarrierHookEvent) :
  verb_event method = Some event -> fires_before_fetch event.
Proof.
  destruct method; by intros [= <-].
Qed.

Lemma fire_verb_delta (method : Method) (w w' : World) (o : Outcome unit) :
  fire_verb callback method w = (o, w') ->
  exists t, trace w' = trace w ++ t /\ hook_delta fires_before_fetch o t.
Proof.
  rewrite fire_verb_run. destruct (verb_event method) as [event|] eqn:Hev.
  - intros Hrun. apply trigger_delta in Hrun as (t & Ht & Hd).
    exists t. split; [done|]. apply (hook_delta_weaken (eq event)); [|done].
    intros ? <-. by apply (fires_before_fetch_verb method).
  - intros [= <- <-]. exists []. rewrite app_nil_r.
    split; [done | apply hook_delta_nil].
Qed.

Lemma notify_delta (r : Response) (w w' : World) (o : Outcome unit) :
  notify callback r w = (o, w') ->
  exists t, trace w' = trace w ++ t /\
            hook_delta (fun event => ~ fires_before_fetch event) o t.
Proof.
  assert (Hresp : forall event, EvResponse = event -> ~ fires_before_fetch event).
  { intros ? <-. simpl. tauto. }
  rewrite notify_run.
  destruct (trigger callback EvResponse [ArgResponse r] w) as [[[]|e] w1] eqn:E1;
    apply trigger_delta in E1 as (t1 & Ht1 & Hd1);
    apply (hook_delta_weaken _ _ _ _ Hresp) in Hd1.
  - intros E2. apply trigger_delta in E2 as (t2 & Ht2 & Hd2).
    exists (t1 ++ t2). split; [by rewrite Ht2, Ht1, app_assoc|].
    apply hook_delta_app; [done|].
    apply (hook_delta_weaken (eq (closing_event (self (heap w1))))); [|done].
    intros ? <-. unfold closing_event.
    destruct (in_success_range _); simpl; tauto.
  - intros [= <- <-]. by exists t1.
Qed.

(** A call ends before the network call, through a callback that threw,
    through [applyAuth] or through [JSON.stringify], or it issues the
    network call from the world the pre-request hooks left. *)
Lemma send_trace (opts : CarrierOptions) (w w' : World) (o : Outcome unit) :
  send btoa stringify fetch callback opts w = (o, w') ->
  let method := default GET (opt_method opts) in
  let headers := build_headers (self (heap w)) opts in
  let w0 := {| heap := with_options opts (heap w); trace := trace w |} in
  exists t, trace w' = trace w ++ t /\
    ((exists e, o = Threw e /\
        (hook_delta fires_before_fetch (Threw e) t \/
         (hook_delta fires_before_fetch (Returned tt) t /\
          ((exists s, btoa s = Threw e) \/ (exists v, stringify v = Threw e))))) \/
     (exists w1 w2 applied body before after,
        trigger callback EvRequest [ArgOptions] w0 = (Returned tt, w1) /\
        fire_verb callback method w1 = (Returned tt, w2) /\
        applyAuth btoa (self (heap w2)) headers (opt_auth (options (heap w2)))
          (Some (resolveUrl (self (heap w2)) (opt_url (options (heap w2)))))
          = Returned applied /\
        request_body stringify method (options (heap w2)) = Returned body /\
        t = before
              ++ Fetch applied.2
                   (request_init method applied.1 (options (heap w2)) body)
              :: after /\
        hook_delta fires_before_fetch (Returned tt) before /\
        ((exists e, o = Threw e /\ after = [] /\
            fetch applied.2 (request_init method applied.1 (options (heap w2)) body)
              = Threw e) \/
         (exists r,
            fetch applied.2 (request_init method applied.1 (options (heap w2)) body)
              = Returned r /\
            hook_delta (fun event => ~ fires_before_fetch event) o after)))).
Proof.
  assert (Hreq : forall event, EvRequest = event -> fires_before_fetch event).
  { by intros ? <-. }
  rewrite send_stretches. cbv zeta.
  destruct (trigger callback EvRequest [ArgOptions] _) as [o1 w1] eqn:E1.
  destruct (trigger_delta _ _ _ _ _ _ E1) as (t1 & Ht1 & Hd1).
  apply (hook_delta_weaken _ _ _ _ Hreq) in Hd1. simpl in Ht1.
  destruct o1 as [[]|e1].
  2:{ intros [= <- <-]. exists t1. split; [done|]. left. exists e1. auto. }
  destruct (fire_verb callback _ w1) as [o2 w2] eqn:E2.
  destruct (fire_verb_delta _ _ _ _ E2) as (t2 & Ht2 & Hd2).
  destruct o2 as [[]|e2].
  2:{ intros [= <- <-]. exists (t1 ++ t2). split; [by rewrite Ht2, Ht1, app_assoc|].
      left. exists e2. split; [done|]. left. by apply hook_delta_app. }
  assert (Hd12 : hook_delta fires_before_fetch (Returned tt) (t1 ++ t2))
    by by apply hook_delta_app.
  destruct (applyAuth btoa _ _ _ _) as [applied|e3] eqn:E3.
  2:{ intros [= <- <-]. exists (t1 ++ t2). split; [by rewrite Ht2, Ht1, app_assoc|].
      left. exists e3. split; [done|]. right. split; [done|]. left.
      by apply applyAuth_threw in E3. }
  destruct (request_body stringify _ _) as [body|e6] eqn:E6.
  2:{ intros [= <- <-]. exists (t1 ++ t2). split; [by rewrite Ht2, Ht1, app_assoc|].
      left. exists e6. split; [done|]. right. split; [done|]. right.
      by apply request_body_threw in E6. }
  destruct (fetch _ _) as [r|e4] eqn:E4.
  - intros E5. apply notify_delta in E5 as (t5 & Ht5 & Hd5). simpl in Ht5.
    exists ((t1 ++ t2) ++ Fetch applied.2
              (request_init (default GET (opt_method opts)) applied.1
                 (options (heap w2)) body) :: t5).
    split.
    + rewrite Ht5, Ht2, Ht1. rewrite <- !app_assoc. done.
    + right. exists w1, w2, applied, body, (t1 ++ t2), t5.
      do 5 (split; [done|]). split; [done|]. right. by exists r.
  - intros [= <- <-].
    exists ((t1 ++ t2) ++ [Fetch applied.2
              (request_init (default GET (opt_method opts)) applied.1
                 (options (heap w2)) body)]).
    split.
    + simpl. rewrite Ht2, Ht1. rewrite <- !app_assoc. done.
    + right. exists w1, w2, applied, body, (t1 ++ t2), [].
      do 5 (split; [done|]). split; [done|]. left. by exists e4.
Qed.

(** **** The container *)

(** C6. A call that returns got a response from the network call it
    issued; the post-response hooks start in a world whose container holds
    the status of that response, the response itself and its parsed body,
    or [null] when the body does not parse, and [ok] there is decided by
    the status alone. When no registered callback writes the container,
    this is also what the container holds once [send] has returned. A call
    that throws does so because a callback, [btoa], [JSON.stringify] or
    [fetch] threw: a body that does not parse is not among the reasons. *)
Theorem send_records_response (opts : CarrierOptions) (w w' : World)
    (o : Outcome unit) :
  send btoa stringify fetch callback opts w = (o, w') ->
  match o with
  | Returned _ =>
      exists url init r wr,
        fetch url init = Returned r /\
        (exists t, trace wr = trace w ++ t ++ [Fetch url init] /\ only_calls t) /\
        container (self (heap wr)) = envelope_of r /\
        ok (self (heap wr)) = in_success_range (resp_status r) /\
        notify callback r wr = (Returned tt, w') /\
        (callbacks_preserve callback (fun h => container (self h)) (self (heap w)) ->
           status (container (self (heap w'))) = resp_status r /\
           raw (container (self (heap w'))) = Some r /\
           (forall parsed, resp_json r = Some parsed ->
              data (container (self (heap w'))) = parsed) /\
           (resp_json r = None -> data (container (self (heap w'))) = JNull) /\
           ok (self (heap w')) = in_success_range (resp_status r))
  | Threw e =>
      (exists t event cb args,
         trace w' = trace w ++ t /\ HookCall event cb args (Threw e) ∈ t) \/
      (exists s, btoa s = Threw e) \/
      (exists v, stringify v = Threw e) \/
      (exists url init, fetch url init = Threw e)
  end.
Proof.
  intros Hrun. destruct o as [[]|e].
  - apply send_returned in Hrun. cbv zeta in Hrun.
    destruct Hrun as (w1 & w2 & applied & body & r & E1 & E2 & E3 & _ & E4 & E5).
    set (init := request_init (default GET (opt_method opts)) applied.1
                   (options (heap w2)) body) in *.
    exists applied.2, init, r,
      (recorded r {| heap := heap w2; trace := trace w2 ++ [Fetch applied.2 init] |}).
    split; [exact E4|].
    split; [|split; [reflexivity|]; split; [reflexivity|]; split; [exact E5|]].
    + pose proof (trigger_trace _ _ _ _ _ _ E1) as T1. simpl in T1.
      destruct (fire_verb_returned _ _ _ E2) as (tv & T2 & Cv & _).
      exists (calls EvRequest [ArgOptions] (listeners (self (heap w)) EvRequest) ++ tv).
      split.
      * simpl. rewrite T2, T1. by rewrite <- !app_assoc.
      * apply only_calls_app; [apply only_calls_calls | exact Cv].
    + intros Hall.
      apply (trigger_keeps (fun h => container (self h))) in E1
        as (_ & Hh1 & Hall1); [|done].
      apply (fire_verb_keeps (fun h => container (self h))) in E2
        as (_ & Hh2 & Hall2); [|done].
      apply (notify_keeps (fun h => container (self h))) in E5 as (Hc & _ & _).
      2:{ apply (callbacks_preserve_hooks _ _ (self (heap w2))); done. }
      simpl in Hc. unfold ok. rewrite Hc. simpl.
      repeat split; [by intros parsed -> | by intros ->].
  - apply send_trace in Hrun. cbv zeta in Hrun.
    destruct Hrun as (t & Ht & [(e' & [= <-] & [Hd|[_ [Hbtoa|Hjson]]]) |
      (w1 & w2 & applied & body & before & after & _ & _ & _ & _ & -> & _ & Hafter)]).
    + destruct Hd as (_ & earlier & event & cb & args & -> & _).
      left. exists (earlier ++ [HookCall event cb args (Threw e)]), event, cb, args.
      split; [done|]. apply elem_of_app. right. apply list_elem_of_here.
    + right. by left.
    + right. right. by left.
    + destruct Hafter as [(e' & [= <-] & _ & Hfetch) | (r & _ & _ & Hshape)].
      * right. right. right. by eexists _, _.
      * destruct Hshape as (earlier & event & cb & args & -> & _).
        left. eexists _, event, cb, args. split; [exact Ht|].
        apply elem_of_app. right. apply list_elem_of_further.
        apply elem_of_app. right. apply list_elem_of_here.
Qed.

(** **** A callback that throws *)

Lemma elem_of_throw_last (earlier : list Obs) (event event' : CarrierHookEvent)
    (cb cb' : CarrierHook) (args args' : list JsArg) (e e' : JsError) :
  no_throw earlier ->
  HookCall event cb args (Threw e)
    ∈ earlier ++ [HookCall event' cb' args' (Threw e')] ->
  event = event' /\ cb = cb' /\ args = args' /\ e = e'.
Proof.
  intros Hno Hin. apply elem_of_app in Hin as [Hin|Hin].
  - by apply Hno in Hin.
  - apply list_elem_of_singleton in Hin. by injection Hin.
Qed.

(** C2, amended. A callback that throws ends the call: [send] throws the
    same exception, the call of that callback is the last thing the call
    did, so that the callbacks registered behind it are not run, and no
    callback before it threw. When the event is one of those fired before
    the network call, the network call is not issued. *)
Theorem hook_exception_ends_send (opts : CarrierOptions) (w w' : World)
    (o : Outcome unit) (t : list Obs) (event : CarrierHookEvent)
    (cb : CarrierHook) (args : list JsArg) (e : JsError) :
  send btoa stringify fetch callback opts w = (o, w') ->
  trace w' = trace w ++ t ->
  HookCall event cb args (Threw e) ∈ t ->
  o = Threw e /\
  (exists earlier,
     t = earlier ++ [HookCall event cb args (Threw e)] /\ no_throw earlier) /\
  (fires_before_fetch event -> only_calls t).
Proof.
  intros Hrun Ht Hin. apply send_trace in Hrun. cbv zeta in Hrun.
  destruct Hrun as (t' & Ht' & Hshape).
  assert (t' = t) as -> by (apply (app_inv_head (trace w)); congruence).
  destruct Hshape as [(e' & -> & [Hd|[Hd _]]) |
    (w1 & w2 & applied & body & before & after & _ & _ & _ & _ & -> & Hb & Hafter)].
  - destruct Hd as (Hcalls & earlier & ev' & cb' & args' & -> & Hno & Hev).
    destruct (elem_of_throw_last _ _ _ _ _ _ _ _ _ Hno Hin) as (-> & -> & -> & ->).
    split; [done|]. split; [by exists earlier | done].
  - destruct Hd as [_ Hno]. by apply Hno in Hin.
  - destruct Hb as [Hbcalls Hbno].
    assert (Hpre : no_throw (before ++ [Fetch applied.2
              (request_init (default GET (opt_method opts)) applied.1
                 (options (heap w2)) body)])).
    { apply no_throw_app; [done | apply no_throw_fetch]. }
    destruct Hafter as [(e' & -> & -> & _) | (r & _ & Hacalls & Hashape)].
    { by apply Hpre in Hin. }
    rewrite (cons_middle _ before after), app_assoc in Hin |- *.
    destruct o as [[]|e'].
    { exfalso. revert Hin. by apply no_throw_app. }
    destruct Hashape as (earlier & ev' & cb' & args' & -> & Hno & Hev).
    rewrite app_assoc in Hin |- *.
    assert (Hno' : no_throw ((before ++ [Fetch applied.2
              (request_init (default GET (opt_method opts)) applied.1
                 (options (heap w2)) body)]) ++ earlier))
      by by apply no_throw_app.
    destruct (elem_of_throw_last _ _ _ _ _ _ _ _ _ Hno' Hin) as (-> & -> & -> & ->).
    split; [done|]. split; [by eexists | done].
Qed.

(** **** The caller's Authorization header *)

Lemma chosen_auth_keeps (this this' : Carrier) (auth auth' : option CarrierAuthConfig) :
  (globalAuth this', auth') = (globalAuth this, auth) ->
  chosen_auth this' auth' = chosen_auth this auth.
Proof. intros [= Hg ->]. unfold chosen_auth. by rewrite Hg. Qed.

(** C1, amended. An [Authorization] header that the caller supplies with a
    value that is not empty is never replaced by the implicit bearer
    token, whatever the token and [useToken]. It is the value of that
    header in the network call when the auth configuration in effect, the
    one of the request or else the global one, is absent or is an ApiKey
    that does not write [Authorization], and no registered callback
    changes the configuration in effect. *)
Theorem explicit_authorization_kept (opts : CarrierOptions) (w : World)
    (userHeaders : gmap string string) (value : string) :
  opt_headers opts = Some userHeaders ->
  userHeaders !! "Authorization" = Some value ->
  value <> "" ->
  build_headers (self (heap w)) opts !! "Authorization" = Some value /\
  (writes_authorization (chosen_auth (self (heap w)) (opt_auth opts)) = false ->
   callbacks_preserve callback
     (fun h => (globalAuth (self h), opt_auth (options h))) (self (heap w)) ->
   forall o w' t url init,
     send btoa stringify fetch callback opts w = (o, w') ->
     trace w' = trace w ++ t ->
     Fetch url init ∈ t ->
     init_headers init !! "Authorization" = Some value).
Proof.
  intros Hh Ha Hne.
  pose proof (build_headers_explicit (self (heap w)) opts _ _ Hh Ha Hne) as Hbuilt.
  split; [exact Hbuilt|].
  intros Hchosen Hall o w' t url init Hrun Ht Hin.
  apply send_trace in Hrun. cbv zeta in Hrun.
  destruct Hrun as (t' & Ht' & Hshape).
  assert (t' = t) as -> by (apply (app_inv_head (trace w)); congruence).
  destruct Hshape as [(e' & -> & [[Hcalls _]|[[Hcalls _] _]]) |
    (w1 & w2 & applied & body & before & after & E1 & E2 & E3 & _ & -> & [Hb _] & Hafter)].
  - by apply Hcalls in Hin.
  - by apply Hcalls in Hin.
  - apply elem_of_app in Hin as [Hin|Hin]; [by apply Hb in Hin|].
    apply elem_of_cons in Hin as [Hin|Hin].
    + injection Hin as -> ->. simpl.
      apply (trigger_keeps (fun h => (globalAuth (self h), opt_auth (options h))))
        in E1 as (Hp1 & _ & Hall1); [|done].
      apply (fire_verb_keeps (fun h => (globalAuth (self h), opt_auth (options h))))
        in E2 as (Hp2 & _ & _); [|done].
      simpl in Hp1.
      assert (Hw2 : writes_authorization
                      (chosen_auth (self (heap w2)) (opt_auth (options (heap w2))))
                    = false).
      { rewrite <- Hchosen. f_equal. apply chosen_auth_keeps. congruence. }
      by rewrite (applyAuth_keeps_authorization _ _ _ _ _ _ Hw2 E3).
    + destruct Hafter as [(e' & _ & -> & _) | (r & _ & Hcalls & _)].
      * by apply not_elem_of_nil in Hin.
      * by apply Hcalls in Hin.
Qed.

End DispatchProperties.

(** ** The properties on the sample runs *)

Lemma run_outcome {A} (x : Outcome A * World) (a : Outcome A) :
  x.1 = a -> x = (a, x.2).
Proof. destruct x as [o w]. simpl. by intros ->. Qed.

Lemma scenario_callbacks_preserve {X} (part : Carrier -> CarrierOptions -> X)
    (this : Carrier) :
  callbacks_preserve Scenario.callback (fun h => part (self h) (options h)) this.
Proof. intros cb _ args h. by destruct cb as [|[|cb]]. Qed.

(** *** URL resolution *)

Lemma resolveUrl_absolute_or_relative_witness :
  resolveUrl Scenario.observed "https://cdn.example/logo.png"
    = "https://cdn.example/logo.png" /\
  resolveUrl Scenario.with_bearer
      (resolveUrl Scenario.observed "https://cdn.example/logo.png")
    = resolveUrl Scenario.observed "https://cdn.example/logo.png" /\
  resolveUrl Scenario.observed "/items" = "https://api.example/items".
Proof.
  destruct (resolveUrl_absolute_or_relative Scenario.observed Scenario.with_bearer
              "https://cdn.example/logo.png") as [Habsolute _].
  destruct (resolveUrl_absolute_or_relative Scenario.observed Scenario.with_bearer
              "/items") as [_ Hrelative].
  assert (Hcdn : absolute_url "https://cdn.example/logo.png")
    by (exists "cdn.example/logo.png"; by right).
  split; [apply (Habsolute Hcdn)|]. split; [apply (Habsolute Hcdn)|].
  apply Hrelative. intros [rest [H|H]]; discriminate H.
Defined.

(** *** Auth strategies *)

Lemma applyAuth_query_appends_witness :
  applyAuth Scenario.btoa Scenario.observed ∅ (Some Scenario.query_key)
      (Some "https://api.example/items?page=2")
    = Returned (∅, "https://api.example/items?page=2&api_key=a%20b") /\
  applyAuth Scenario.btoa Scenario.observed ∅ (Some Scenario.query_key)
      (Some "https://api.example/items")
    = Returned (∅, "https://api.example/items?api_key=a%20b").
Proof.
  split.
  - destruct (applyAuth_query_appends Scenario.btoa Scenario.observed ∅
                (Some Scenario.query_key) "api_key" "a b"
                "https://api.example/items?page=2" eq_refl)
      as [(separator & Hrun & Hquery & _) _]; [discriminate|].
    rewrite Hrun, Hquery; [reflexivity|].
    by exists "https://api.example/items", "page=2".
  - destruct (applyAuth_query_appends Scenario.btoa Scenario.observed ∅
                (Some Scenario.query_key) "api_key" "a b"
                "https://api.example/items" eq_refl)
      as [(separator & Hrun & _ & Hplain) _]; [discriminate|].
    rewrite Hrun, Hplain; [reflexivity|].
    intros H. apply includes_contains in H. discriminate H.
Defined.

Lemma applyAuth_choice_witness :
  applyAuth Scenario.btoa Scenario.with_bearer ∅ (Some Scenario.query_key)
      (Some "https://api.example/items")
    = Returned (∅, "https://api.example/items?api_key=a%20b") /\
  applyAuth Scenario.btoa Scenario.with_bearer ∅ None (Some "https://api.example/items")
    = Returned (<["Authorization" := "Bearer GLOBAL"]> ∅, "https://api.example/items") /\
  applyAuth Scenario.btoa Scenario.observed ∅ None (Some "https://api.example/items")
    = Returned (∅, "https://api.example/items").
Proof.
  destruct (applyAuth_choice Scenario.btoa Scenario.with_bearer ∅
              (Some "https://api.example/items"))
    as (_ & Hrequest & _ & Hglobal & _).
  destruct (applyAuth_choice Scenario.btoa Scenario.observed ∅
              (Some "https://api.example/items")) as (_ & _ & _ & _ & Hneither).
  split; [|split].
  - etrans; [apply Hrequest; discriminate | reflexivity].
  - etrans; [apply (Hglobal (AuthBearer "GLOBAL")); [reflexivity | exact I]
            | reflexivity].
  - by apply Hneither.
Defined.

(** *** Profiles *)

Lemma configureProfiles_resolves_witness :
  (configureProfiles Scenario.hostname Scenario.inherited Scenario.rejects
     Scenario.staging (world_of (Scenario.heap_of new_Carrier))).1
    = Threw (Error "No baseUrl found for environment: staging") /\
  exists w',
    configureProfiles Scenario.hostname Scenario.inherited Scenario.rejects
      Scenario.inferred (world_of (Scenario.heap_of new_Carrier)) = (Returned tt, w') /\
    baseUrl (self (heap w')) = "http://localhost:8080" /\
    token (self (heap w')) = Some "s3cret" /\
    localStorage (heap w') !! "token" = Some "s3cret".
Proof.
  split.
  - apply (configureProfiles_resolves Scenario.hostname Scenario.inherited
             Scenario.rejects Scenario.staging "staging").
    + left. split; [reflexivity | discriminate].
    + right. split; reflexivity.
  - destruct (configureProfiles_resolves Scenario.hostname Scenario.inherited
                Scenario.rejects Scenario.inferred "dev"
                (world_of (Scenario.heap_of new_Carrier))) as [_ Hfound].
    + right. split; [by left|]. by exists "localhost".
    + destruct (Hfound "http://localhost:8080")
        as (o & w' & Hrun & Hbase & _ & Htoken); [reflexivity | discriminate |].
      destruct (Htoken "s3cret") as [Hheld [-> Hstored]];
        [reflexivity | discriminate |].
      by exists w'.
Defined.


(** *** The dispatcher *)

Lemma send_frame_witness :
  configuration
    (self (heap (send Scenario.btoa Scenario.stringify Scenario.fetch Scenario.callback Scenario.post_item
                   (world_of (Scenario.heap_of Scenario.observed))).2))
  = configuration Scenario.observed.
Proof.
  apply (send_frame Scenario.btoa Scenario.stringify Scenario.fetch Scenario.callback Scenario.post_item
           (world_of (Scenario.heap_of Scenario.observed))).
  apply (scenario_callbacks_preserve (fun this _ => this)).
Defined.

Lemma send_hook_order_witness :
  exists before url init after,
    trace (send Scenario.btoa Scenario.stringify Scenario.fetch Scenario.callback Scenario.post_item
             (world_of (Scenario.heap_of Scenario.observed))).2
      = before ++ Fetch url init :: after /\
    map step_of before = [Fired EvRequest 1%nat; Fired EvPost 2%nat] /\
    map step_of after = [Fired EvResponse 2%nat; Fired EvOk 1%nat].
Proof.
  destruct (send_hook_order Scenario.btoa Scenario.stringify Scenario.fetch Scenario.callback
              Scenario.post_item (world_of (Scenario.heap_of Scenario.observed))
              _ (run_outcome _ _ eq_refl))
    as (before & url & init & r & after & Htrace & Hfetch & _ & Hquiet).
  injection Hfetch as <-.
  destruct Hquiet as (Hbefore & Hafter & _).
  { apply (scenario_callbacks_preserve (fun this _ => status (container this))). }
  by exists before, url, init, after.
Defined.

Lemma send_records_response_witness :
  let w' := (send Scenario.btoa Scenario.stringify Scenario.fetch_unavailable Scenario.callback
               Scenario.post_item (world_of (Scenario.heap_of Scenario.observed))).2 in
  container (self (heap w'))
    = {| data := JNull; status := 503; raw := Some Scenario.unavailable |} /\
  ok (self (heap w')) = false.
Proof.
  destruct (send_records_response Scenario.btoa Scenario.stringify Scenario.fetch_unavailable
              Scenario.callback Scenario.post_item
              (world_of (Scenario.heap_of Scenario.observed))
              _ (Returned tt) (run_outcome _ _ eq_refl))
    as (url & init & r & wr & Hfetch & _ & _ & _ & _ & Hquiet).
  injection Hfetch as <-.
  destruct Hquiet as (Hstatus & Hraw & _ & Hdata & Hok).
  { apply (scenario_callbacks_preserve (fun this _ => container this)). }
  cbv zeta. split; [|exact Hok].
  destruct (container _) as [d s r]. simpl in *.
  by rewrite Hstatus, Hraw, (Hdata eq_refl).
Defined.

Lemma explicit_authorization_kept_witness :
  build_headers Scenario.observed Scenario.get_with_authorization !! "Authorization"
    = Some "Custom abc" /\
  forall url init,
    Fetch url init ∈
      trace (send Scenario.btoa Scenario.stringify Scenario.fetch Scenario.callback
               Scenario.get_with_authorization
               (world_of (Scenario.heap_of Scenario.observed))).2 ->
    init_headers init !! "Authorization" = Some "Custom abc".
Proof.
  destruct (explicit_authorization_kept Scenario.btoa Scenario.stringify Scenario.fetch Scenario.callback
              Scenario.get_with_authorization
              (world_of (Scenario.heap_of Scenario.observed))
              {["Authorization" := "Custom abc"]} "Custom abc")
    as [Hbuilt Hsent]; [reflexivity | reflexivity | discriminate |].
  split; [exact Hbuilt|]. intros url init Hin.
  apply (Hsent eq_refl
           (scenario_callbacks_preserve
              (fun this o => (globalAuth this, opt_auth o)) _)
           _ _ _ url init (run_outcome _ _ eq_refl) eq_refl Hin).
Defined.

Lemma hook_exception_ends_send_witness :
  (send Scenario.btoa Scenario.stringify Scenario.fetch Scenario.callback Scenario.get_items
     (world_of (Scenario.heap_of Scenario.fragile))).1 = Threw (Error "boom") /\
  only_calls
    (trace (send Scenario.btoa Scenario.stringify Scenario.fetch Scenario.callback Scenario.get_items
              (world_of (Scenario.heap_of Scenario.fragile))).2).
Proof.
  destruct (hook_exception_ends_send Scenario.btoa Scenario.stringify Scenario.fetch Scenario.callback
              Scenario.get_items (world_of (Scenario.heap_of Scenario.fragile))
              _ _ _ EvRequest 0%nat [ArgOptions] (Error "boom")
              (run_outcome _ _ eq_refl) eq_refl)
    as (Hthrew & _ & Hcalls).
  - apply list_elem_of_here.
  - split; [exact Hthrew | by apply Hcalls].
Defined.

(** *** Where the code goes its own way *)

(** C1. A global bearer strategy replaces the [Authorization] header that
    the caller supplied. *)
Lemma global_bearer_replaces_explicit_authorization :
  default ∅ (opt_headers Scenario.get_with_authorization) !! "Authorization"
    = Some "Custom abc" /\
  (send Scenario.btoa Scenario.stringify Scenario.fetch Scenario.callback Scenario.get_with_authorization
     (world_of (Scenario.heap_of Scenario.with_bearer))).1 = Returned tt /\
  authorization_sent
    (trace (send Scenario.btoa Scenario.stringify Scenario.fetch Scenario.callback
              Scenario.get_with_authorization
              (world_of (Scenario.heap_of Scenario.with_bearer))).2)
    = [Some "Bearer GLOBAL"].
Proof. repeat split; vm_compute; reflexivity. Qed.

(** C2. The first [request] callback throws: the second one is not run,
    no network call is issued and [send] throws. *)
Lemma throwing_callback_rejects_send :
  listeners Scenario.fragile EvRequest = [0%nat; 1%nat] /\
  Scenario.callback 0%nat [ArgOptions] (Scenario.heap_of Scenario.fragile)
    = (Threw (Error "boom"), Scenario.heap_of Scenario.fragile) /\
  send Scenario.btoa Scenario.stringify Scenario.fetch Scenario.callback Scenario.get_items
    (world_of (Scenario.heap_of Scenario.fragile))
  = (Threw (Error "boom"),
     {| heap := with_options Scenario.get_items (Scenario.heap_of Scenario.fragile);
        trace := [HookCall EvRequest 0%nat [ArgOptions] (Threw (Error "boom"))] |}).
Proof. repeat split; vm_compute; reflexivity. Qed.

(** C3. An override that is the empty string is passed over: the profile
    stored is the one of the inferred environment, not the one filed under
    the override. *)
Lemma empty_override_is_passed_over :
  cfg_env Scenario.empty_override = Some "" /\
  cfg_profiles Scenario.empty_override !! "" = Some "https://blank.example" /\
  (configureProfiles Scenario.hostname Scenario.inherited Scenario.rejects
     Scenario.empty_override (world_of (Scenario.heap_of new_Carrier))).1
    = Returned tt /\
  baseUrl (self (heap (configureProfiles Scenario.hostname Scenario.inherited
                         Scenario.rejects Scenario.empty_override
                         (world_of (Scenario.heap_of new_Carrier))).2))
    = "http://localhost:8080".
Proof. repeat split; vm_compute; reflexivity. Qed.

(** C7. An empty URL has no [?], and comes back without the key. *)
Lemma empty_url_gets_no_key :
  ~ contains "" "?" /\
  applyAuth Scenario.btoa new_Carrier ∅ (Some Scenario.query_key) (Some "")
    = Returned (∅, "").
Proof.
  split; [|reflexivity].
  intros H. apply includes_contains in H. discriminate H.
Qed.


(** ** Further properties of the class *)

(** *** The environment *)

(** X1. [inferEnv] changes nothing. Without a location it throws a
    [TypeError]; with one, the tag is [dev] exactly for the host
    [localhost], [qa] exactly for another host that has [qacore] in it, and
    [prod] exactly for the others. *)
Theorem inferEnv_tags (hostname : option string) (w : World) :
  (inferEnv hostname w).2 = w /\
  match hostname with
  | None => exists e, (inferEnv hostname w).1 = Threw e /\ err_name e = "TypeError"
  | Some host =>
      exists tag,
        (inferEnv hostname w).1 = Returned tag /\
        (tag = "dev" <-> host = "localhost") /\
        (tag = "qa" <-> host <> "localhost" /\ contains host "qacore") /\
        (tag = "prod" <-> host <> "localhost" /\ ~ contains host "qacore")
  end.
Proof.
  destruct hostname as [host|]; simpl.
  - unfold inferEnv.
    destruct (String.eqb_spec host "localhost") as [Hlocal|Hother].
    + split; [done|]. exists "dev". split; [done|].
      repeat split; try done; intros []; done.
    + destruct (Js.includes host "qacore") eqn:Hqa.
      * apply includes_contains in Hqa.
        split; [done|]. exists "qa". split; [done|].
        repeat split; try done; intros []; done.
      * assert (Hno : ~ contains host "qacore").
        { intros H. apply includes_contains in H. congruence. }
        split; [done|]. exists "prod". split; [done|].
        repeat split; try done; intros []; done.
  - split; [done|]. by eexists.
Qed.

(** X2. With an override that is not empty, [configureProfiles] does not
    look at the location: it does the same on every host and without one.
    Without such an override and without a location it throws the
    [TypeError] of [inferEnv], whatever the profiles hold, and changes
    nothing. *)
Theorem configureProfiles_location (inherited : string -> option string)
    (rejects : gmap string string -> string -> string -> option JsError)
    (config : CarrierProfileConfig) (w : World) :
  (forall env, cfg_env config = Some env -> env <> "" ->
     forall hostname hostname',
       configureProfiles hostname inherited rejects config w
       = configureProfiles hostname' inherited rejects config w) /\
  (blank (cfg_env config) ->
     exists e, configureProfiles None inherited rejects config w = (Threw e, w) /\
               err_name e = "TypeError").
Proof.
  split.
  - intros env Henv Hne hostname hostname'. unfold configureProfiles, bind.
    by rewrite (proj2 (present_Some _ _) (conj Henv Hne)).
  - intros Hblank. unfold configureProfiles, bind.
    rewrite (proj2 (present_None _) Hblank). by eexists.
Qed.

Lemma configureProfiles_location_witness :
  configureProfiles (Some "qacore-3.example") Scenario.inherited Scenario.rejects
      Scenario.staging (world_of (Scenario.heap_of new_Carrier))
    = configureProfiles None Scenario.inherited Scenario.rejects Scenario.staging
        (world_of (Scenario.heap_of new_Carrier)) /\
  exists e,
    configureProfiles None Scenario.inherited Scenario.rejects Scenario.inferred
      (world_of (Scenario.heap_of new_Carrier))
      = (Threw e, world_of (Scenario.heap_of new_Carrier)) /\
    err_name e = "TypeError".
Proof.
  split.
  - apply (configureProfiles_location Scenario.inherited Scenario.rejects
             Scenario.staging _) with (env := "staging");
      [reflexivity | discriminate].
  - apply (configureProfiles_location Scenario.inherited Scenario.rejects
             Scenario.inferred _). by left.
Defined.

(** *** [configure] *)

(** X3. A [configureProfiles] that finds a URL does what [configure] does
    with that URL and the token of the profile configuration. *)
Theorem configureProfiles_as_configure (hostname : option string)
    (inherited : string -> option string)
    (rejects : gmap string string -> string -> string -> option JsError)
    (config : CarrierProfileConfig) (env url : string) (w : World) :
  resolves_to hostname config env ->
  cfg_profiles config !! env = Some url ->
  url <> "" ->
  configureProfiles hostname inherited rejects config w =
  configure rejects {| conf_baseUrl := Some url; conf_token := cfg_token config |} w.
Proof.
  intros Henv Hurl Hne. rewrite (configureProfiles_run _ _ _ _ _ _ Henv).
  destruct (get_own inherited _ _ _ Hurl Hne) as [-> ->].
  unfold configure, setToken, bind. simpl.
  destruct (String.eqb_spec url "") as [|_]; [done|]. simpl.
  by destruct (Js.present (cfg_token config)).
Qed.

Lemma configureProfiles_as_configure_witness :
  configureProfiles Scenario.hostname Scenario.inherited Scenario.rejects
    Scenario.inferred (world_of (Scenario.heap_of new_Carrier))
  = configure Scenario.rejects
      {| conf_baseUrl := Some "http://localhost:8080"; conf_token := Some "s3cret" |}
      (world_of (Scenario.heap_of new_Carrier)).
Proof.
  apply (configureProfiles_as_configure Scenario.hostname Scenario.inherited
           Scenario.rejects Scenario.inferred "dev").
  - right. split; [by left|]. by exists "localhost".
  - reflexivity.
  - discriminate.
Defined.

(** X4. [configure] passes over a field that is missing or empty: the base
    URL, or the token and the credential store, stay as they were, so that
    [configure] cannot empty the base URL, which [configureBaseUrl] can. A
    base URL that is not empty is stored. A token that is not empty is
    stored in the client and then handed to the credential store:
    [configure] returns when the store takes it, and throws what the store
    threw when it does not, the client then holding a token that the store
    does not. Nothing else makes it throw; the container, the global auth
    strategy and the hook table are never touched. *)
Theorem configure_fields
    (rejects : gmap string string -> string -> string -> option JsError)
    (config : CarrierConfig) (w : World) :
  exists o w',
    configure rejects config w = (o, w') /\
    (blank (conf_baseUrl config) -> baseUrl (self (heap w')) = baseUrl (self (heap w))) /\
    (forall url, conf_baseUrl config = Some url -> url <> "" ->
       baseUrl (self (heap w')) = url) /\
    (blank (conf_token config) ->
       o = Returned tt /\
       token (self (heap w')) = token (self (heap w)) /\
       localStorage (heap w') = localStorage (heap w)) /\
    (forall t, conf_token config = Some t -> t <> "" ->
       token (self (heap w')) = Some t /\
       match rejects (localStorage (heap w)) "token" t with
       | None =>
           o = Returned tt /\
           localStorage (heap w') = <["token" := t]> (localStorage (heap w))
       | Some e =>
           o = Threw e /\ localStorage (heap w') = localStorage (heap w)
       end) /\
    container (self (heap w')) = container (self (heap w)) /\
    globalAuth (self (heap w')) = globalAuth (self (heap w)) /\
    hooks (self (heap w')) = hooks (self (heap w)) /\
    trace w' = trace w /\
    baseUrl (self (heap (configureBaseUrl "" w).2)) = "".
Proof.
  assert (Hclash : forall (o : option string) s,
            o = Some s -> s <> "" -> blank o -> False).
  { intros o s -> Hne [H|H]; congruence. }
  unfold configure, setItem, bind, modify_self, modify_heap, ret.
  destruct (Js.present (conf_baseUrl config)) as [url|] eqn:Hb;
    destruct (Js.present (conf_token config)) as [t|] eqn:Ht; simpl;
    try destruct (rejects (localStorage (heap w)) "token" t) as [e|] eqn:Hstore;
    eexists _, _; (split; [reflexivity|]); simpl;
    try apply present_Some in Hb as [Hb Hbne];
    try apply present_Some in Ht as [Ht Htne];
    try apply present_None in Hb; try apply present_None in Ht.
  - split; [intros Hbl; by destruct (Hclash _ _ Hb Hbne Hbl)|].
    split; [intros; congruence|].
    split; [intros Hbl; by destruct (Hclash _ _ Ht Htne Hbl)|].
    split; [|done].
    intros t' Ht' _. assert (t' = t) as -> by congruence. by rewrite Hstore.
  - split; [intros Hbl; by destruct (Hclash _ _ Hb Hbne Hbl)|].
    split; [intros; congruence|].
    split; [intros Hbl; by destruct (Hclash _ _ Ht Htne Hbl)|].
    split; [|done].
    intros t' Ht' _. assert (t' = t) as -> by congruence. by rewrite Hstore.
  - split; [intros Hbl; by destruct (Hclash _ _ Hb Hbne Hbl)|].
    split; [intros; congruence|].
    split; [done|].
    split; [intros t' Ht' Hne'; by destruct (Hclash _ _ Ht' Hne' Ht)|]. done.
  - split; [done|].
    split; [intros url' Hu Hne'; by destruct (Hclash _ _ Hu Hne' Hb)|].
    split; [intros Hbl; by destruct (Hclash _ _ Ht Htne Hbl)|].
    split; [|done].
    intros t' Ht' _. assert (t' = t) as -> by congruence. by rewrite Hstore.
  - split; [done|].
    split; [intros url' Hu Hne'; by destruct (Hclash _ _ Hu Hne' Hb)|].
    split; [intros Hbl; by destruct (Hclash _ _ Ht Htne Hbl)|].
    split; [|done].
    intros t' Ht' _. assert (t' = t) as -> by congruence. by rewrite Hstore.
  - split; [done|].
    split; [intros url' Hu Hne'; by destruct (Hclash _ _ Hu Hne' Hb)|].
    split; [done|].
    split; [intros t' Ht' Hne'; by destruct (Hclash _ _ Ht' Hne' Ht)|]. done.
Qed.

Lemma configure_fields_witness :
  exists w',
    configure Sample.full {| conf_baseUrl := Some ""; conf_token := Some "s3cret" |}
      (world_of (Scenario.heap_of Scenario.observed))
      = (Threw Sample.QuotaExceededError, w') /\
    baseUrl (self (heap w')) = "https://api.example" /\
    token (self (heap w')) = Some "s3cret" /\
    localStorage (heap w') = ∅.
Proof.
  destruct (configure_fields Sample.full
              {| conf_baseUrl := Some ""; conf_token := Some "s3cret" |}
              (world_of (Scenario.heap_of Scenario.observed)))
    as (o & w' & Hrun & Hkept & _ & _ & Hstored & _).
  destruct (Hstored "s3cret") as [Hheld [-> Hstore]]; [reflexivity | discriminate |].
  exists w'. split; [exact Hrun|]. split; [|split; [exact Hheld | exact Hstore]].
  apply Hkept. by right.
Defined.

(** X5. With both fields given and not empty, [configure] is
    [configureBaseUrl] followed by [configureToken]. *)
Theorem configure_as_setters
    (rejects : gmap string string -> string -> string -> option JsError)
    (url t : string) (w : World) :
  url <> "" -> t <> "" ->
  configure rejects {| conf_baseUrl := Some url; conf_token := Some t |} w =
  (configureBaseUrl url ;;; configureToken rejects t) w.
Proof.
  intros Hu Ht. unfold configure, configureBaseUrl, configureToken, setToken, bind.
  simpl.
  destruct (String.eqb_spec url "") as [|_]; [done|].
  by destruct (String.eqb_spec t "") as [|_].
Qed.

Lemma configure_as_setters_witness :
  configure Scenario.rejects
    {| conf_baseUrl := Some "https://api.example"; conf_token := Some "s3cret" |}
    (world_of (Scenario.heap_of new_Carrier))
  = (configureBaseUrl "https://api.example" ;;; configureToken Scenario.rejects "s3cret")
      (world_of (Scenario.heap_of new_Carrier)).
Proof. apply configure_as_setters; discriminate. Defined.

(** *** Any sequence of configuration calls *)

Section ConfigurationProperties.

Variable hostname : option string.
Variable inherited : string -> option string.
Variable rejects : gmap string string -> string -> string -> option JsError.

Ltac run_call :=
  unfold configureProfiles, configure, configureBaseUrl, configureToken,
    configureAuth, setToken, setItem, on, inferEnv, bind, ret, throw, modify_self,
    modify_heap;
  simpl; repeat case_match; simplify_eq; simpl.

Lemma perform_frame (c : ConfigCall) (w : World) :
  container (self (heap (perform hostname inherited rejects c w).2))
    = container (self (heap w)) /\
  trace (perform hostname inherited rejects c w).2 = trace w /\
  options (heap (perform hostname inherited rejects c w).2) = options (heap w) /\
  elsewhere (heap (perform hostname inherited rejects c w).2) = elsewhere (heap w).
Proof. destruct c; simpl; run_call; done. Qed.

Lemma perform_listeners (c : ConfigCall) (event : CarrierHookEvent) (w : World) :
  listeners (self (heap (perform hostname inherited rejects c w).2)) event =
  listeners (self (heap w)) event ++ registrations event [c].
Proof.
  destruct c; simpl; try (rewrite app_nil_r; run_call; done).
  unfold listeners. simpl. destruct (decide (event0 = event)) as [->|Hne].
  - by rewrite lookup_insert_eq.
  - rewrite lookup_insert_ne by done. by rewrite app_nil_r.
Qed.

Lemma perform_token_stored (c : ConfigCall) (w : World) :
  (forall store key value, rejects store key value = None) ->
  token_stored (heap w) ->
  token_stored (heap (perform hostname inherited rejects c w).2).
Proof.
  intros Hroom. unfold token_stored.
  destruct c; simpl; run_call; try done;
    try match goal with
    | H : rejects _ _ _ = Some _ |- _ => by rewrite Hroom in H
    end;
    intros Hw t' [= <-]; apply lookup_insert_eq.
Qed.

(** X6. On a credential store that takes what it is given, whatever
    configuration calls are made, in whatever order and also when some of
    them throw, a token that the client holds is the one kept in the store
    under [token], provided this was so before the calls, as it is for a
    new client. A store that refuses breaks this: [setToken] then throws
    what the store threw, after it has given the client a token that the
    store does not hold. *)
Theorem configuration_keeps_token_stored (cs : list ConfigCall) (w : World) :
  ((forall store key value, rejects store key value = None) ->
   token_stored (heap w) ->
   token_stored (heap (perform_all hostname inherited rejects cs w))) /\
  (forall t e,
     rejects (localStorage (heap w)) "token" t = Some e ->
     localStorage (heap w) !! "token" <> Some t ->
     (setToken rejects t w).1 = Threw e /\
     ~ token_stored (heap (setToken rejects t w).2)).
Proof.
  split.
  - intros Hroom. revert w. induction cs as [|c rest IH]; intros w Hw; [done|].
    simpl. by apply IH, perform_token_stored.
  - intros t e Hstore Hother. rewrite setToken_run, Hstore. simpl.
    split; [done|]. intros Hinv. apply Hother. by apply Hinv.
Qed.

(** X7. After any sequence of configuration calls the callbacks of an
    event are those it had before, followed by the callbacks that the [on]
    calls of the sequence registered for it, in the order of the calls: no
    call removes or reorders a callback, and registering a callback twice
    lists it twice. *)
Theorem configuration_appends_listeners (cs : list ConfigCall)
    (event : CarrierHookEvent) (w : World) :
  listeners (self (heap (perform_all hostname inherited rejects cs w))) event =
  listeners (self (heap w)) event ++ registrations event cs.
Proof.
  revert w. induction cs as [|c rest IH]; intros w; simpl.
  - by rewrite app_nil_r.
  - rewrite IH, perform_listeners, <- app_assoc. f_equal.
    unfold registrations. simpl. by destruct c; try case_decide.
Qed.

(** X8. No configuration call writes the container, issues a network call
    or runs a callback: after any sequence of them the container, and with
    it [ok] and [check], and the trace are what they were. *)
Theorem configuration_keeps_container (cs : list ConfigCall) (w : World) :
  container (self (heap (perform_all hostname inherited rejects cs w)))
    = container (self (heap w)) /\
  ok (self (heap (perform_all hostname inherited rejects cs w))) = ok (self (heap w)) /\
  check (self (heap (perform_all hostname inherited rejects cs w)))
    = check (self (heap w)) /\
  trace (perform_all hostname inherited rejects cs w) = trace w.
Proof.
  assert (H : container (self (heap (perform_all hostname inherited rejects cs w)))
                = container (self (heap w)) /\
              trace (perform_all hostname inherited rejects cs w) = trace w).
  { revert w. induction cs as [|c rest IH]; intros w; [done|]. simpl.
    destruct (IH (perform hostname inherited rejects c w).2) as [Hc Ht].
    destruct (perform_frame c w) as (Hc' & Ht' & _).
    split; congruence. }
  destruct H as [Hc Ht]. unfold check, ok. by rewrite Hc.
Qed.

(** X23. After any sequence of configuration calls the global auth
    strategy is the one given to the last [configureAuth] of the sequence,
    and the one from before when the sequence has no [configureAuth]. *)
Theorem configuration_last_auth (cs : list ConfigCall) (w : World) :
  globalAuth (self (heap (perform_all hostname inherited rejects cs w))) =
  match last (omap (fun c => match c with
                             | CallConfigureAuth a => Some a
                             | _ => None
                             end) cs) with
  | Some a => Some a
  | None => globalAuth (self (heap w))
  end.
Proof.
  revert w. induction cs as [|c rest IH]; intros w; [done|].
  simpl. rewrite IH.
  set (auths := omap _ rest).
  assert (Hstep : globalAuth (self (heap (perform hostname inherited rejects c w).2)) =
                  match c with
                  | CallConfigureAuth a => Some a
                  | _ => globalAuth (self (heap w))
                  end).
  { destruct c; simpl; try done; run_call; done. }
  rewrite Hstep. destruct c; try done.
  subst auths. simpl. rewrite last_cons. by destruct (last _).
Qed.

End ConfigurationProperties.

Lemma configuration_keeps_token_stored_witness :
  token_stored
    (heap (perform_all Scenario.hostname Scenario.inherited Scenario.rejects
             [CallConfigureProfiles Scenario.staging; CallSetToken "first";
              CallConfigure {| conf_baseUrl := None; conf_token := Some "" |};
              CallConfigureToken "second"]
             (world_of (Scenario.heap_of new_Carrier)))) /\
  (setToken Sample.full "first" (world_of (Scenario.heap_of new_Carrier))).1
    = Threw Sample.QuotaExceededError /\
  ~ token_stored
      (heap (setToken Sample.full "first" (world_of (Scenario.heap_of new_Carrier))).2).
Proof.
  destruct (configuration_keeps_token_stored Scenario.hostname Scenario.inherited
              Scenario.rejects
              [CallConfigureProfiles Scenario.staging; CallSetToken "first";
               CallConfigure {| conf_baseUrl := None; conf_token := Some "" |};
               CallConfigureToken "second"]
              (world_of (Scenario.heap_of new_Carrier))) as [Hkept _].
  destruct (configuration_keeps_token_stored Scenario.hostname Scenario.inherited
              Sample.full [] (world_of (Scenario.heap_of new_Carrier)))
    as [_ Hbroken].
  split.
  - apply Hkept; [done|]. intros t Ht. discriminate Ht.
  - apply (Hbroken "first" Sample.QuotaExceededError); [reflexivity|].
    simpl. by rewrite lookup_empty.
Defined.

(** *** Registering and firing *)

Section RegistrationProperties.

Variable callback : CarrierHook -> list JsArg -> Heap -> Outcome unit * Heap.

Lemma on_listeners (event event' : CarrierHookEvent) (cb : CarrierHook) (w : World) :
  listeners (self (heap (on event cb w).2)) event' =
  listeners (self (heap w)) event' ++ (if decide (event = event') then [cb] else []).
Proof.
  unfold listeners, on. simpl. destruct (decide (event = event')) as [->|Hne].
  - by rewrite lookup_insert_eq.
  - rewrite lookup_insert_ne by done. by rewrite app_nil_r.
Qed.

(** X9. A callback registered with [on] is run by the next [trigger] of
    its event after the callbacks registered before it; the [trigger] of
    another event runs the callbacks it ran before. *)
Theorem on_then_trigger (event : CarrierHookEvent) (cb : CarrierHook) (w : World) :
  (forall args w',
     trigger callback event args (on event cb w).2 = (Returned tt, w') ->
     trace w' = trace w ++ calls event args (listeners (self (heap w)) event)
                  ++ [HookCall event cb args (Returned tt)]) /\
  (forall event' args w',
     event' <> event ->
     trigger callback event' args (on event cb w).2 = (Returned tt, w') ->
     trace w' = trace w ++ calls event' args (listeners (self (heap w)) event')).
Proof.
  split.
  - intros args w' Hrun. apply trigger_trace in Hrun.
    rewrite on_listeners, decide_True in Hrun by done.
    unfold calls in *. by rewrite map_app in Hrun.
  - intros event' args w' Hne Hrun. apply trigger_trace in Hrun.
    rewrite on_listeners, decide_False, app_nil_r in Hrun by done. exact Hrun.
Qed.

End RegistrationProperties.

Lemma on_then_trigger_witness :
  trace (trigger Scenario.callback EvRequest [ArgOptions]
           (on EvRequest 2%nat (world_of (Scenario.heap_of Scenario.observed))).2).2
  = [HookCall EvRequest 1%nat [ArgOptions] (Returned tt);
     HookCall EvRequest 2%nat [ArgOptions] (Returned tt)].
Proof.
  destruct (on_then_trigger Scenario.callback EvRequest 2%nat
              (world_of (Scenario.heap_of Scenario.observed))) as [Hsame _].
  apply (Hsame [ArgOptions]). apply run_outcome. reflexivity.
Defined.

(** *** More on URL resolution *)

(** X21. Only the two lower-case prefixes count: a path that does not begin
    with the letter [h], such as an upper-case, protocol-relative or other
    scheme, gets the base URL in front, and the empty path gives the base
    URL. With the empty base URL of a new client every path comes back as
    it is. *)
Theorem resolveUrl_relative (this : Carrier) :
  (forall c rest, c <> "h"%char ->
     resolveUrl this (String c rest) = baseUrl this +:+ String c rest) /\
  resolveUrl this "" = baseUrl this +:+ "" /\
  (baseUrl this = "" -> forall path, resolveUrl this path = path).
Proof.
  split; [|split].
  - intros c rest Hc. unfold resolveUrl, Js.startsWith.
    rewrite !prefix_cons.
    destruct (Ascii.ascii_dec "h" c) as [Heq|_]; [congruence|].
    simpl. by rewrite or_else_Some.
  - unfold resolveUrl. simpl. by rewrite or_else_Some.
  - intros Hbase path. unfold resolveUrl. rewrite Hbase.
    by destruct (_ || _).
Qed.

Lemma resolveUrl_relative_witness :
  resolveUrl Scenario.observed "HTTPS://cdn.example/logo.png"
    = "https://api.exampleHTTPS://cdn.example/logo.png" /\
  resolveUrl new_Carrier "/items" = "/items".
Proof.
  destruct (resolveUrl_relative Scenario.observed) as (Hother & _ & _).
  destruct (resolveUrl_relative new_Carrier) as (_ & _ & Hnew).
  split.
  - apply (Hother "H"%char "TTPS://cdn.example/logo.png"). discriminate.
  - by apply Hnew.
Defined.

(** *** More on the auth strategies *)

Section AuthFrame.

Variable btoa : string -> Outcome string.

Lemma applyAuth_other_headers (this : Carrier) (headers : gmap string string)
    (auth : option CarrierAuthConfig) (url : option string)
    (applied : gmap string string * string) (k : string) :
  applyAuth btoa this headers auth url = Returned applied ->
  auth_header (chosen_auth this auth) <> Some k ->
  applied.1 !! k = headers !! k.
Proof.
  unfold applyAuth.
  change (match auth with Some a => Some a | None => globalAuth this end)
    with (chosen_auth this auth).
  destruct (chosen_auth this auth) as [[t|u p|key v [|]]|]; simpl.
  - intros [= <-] Hk. simpl. apply lookup_insert_ne. congruence.
  - destruct (btoa _); [|done]. intros [= <-] Hk. simpl.
    apply lookup_insert_ne. congruence.
  - intros [= <-] Hk. simpl. apply assign_other. congruence.
  - destruct (Js.present url); by intros [= <-].
  - by intros [= <-].
Qed.

(** X15. [applyAuth] changes at most the one header that the strategy in
    effect names, removes none, and returns the URL it was given unless the
    strategy is an ApiKey placed in the query. *)
Theorem applyAuth_frame (this : Carrier) (headers : gmap string string)
    (auth : option CarrierAuthConfig) (url : string)
    (applied : gmap string string * string) :
  applyAuth btoa this headers auth (Some url) = Returned applied ->
  (forall k, auth_header (chosen_auth this auth) <> Some k ->
     applied.1 !! k = headers !! k) /\
  (forall k, is_Some (headers !! k) -> is_Some (applied.1 !! k)) /\
  ((forall key value, chosen_auth this auth <> Some (AuthApiKey key value InQuery)) ->
     applied.2 = url).
Proof.
  intros Hrun. split; [|split].
  - intros k Hk. by apply (applyAuth_other_headers _ _ _ _ _ _ Hrun).
  - intros k Hsome.
    destruct (decide (auth_header (chosen_auth this auth) = Some k)) as [Heq|Hne].
    + revert Hrun Heq. unfold applyAuth.
      change (match auth with Some a => Some a | None => globalAuth this end)
        with (chosen_auth this auth).
      destruct (chosen_auth this auth) as [[t|u p|key v [|]]|]; simpl; try done.
      * intros [= <-] [= <-]. simpl. by rewrite lookup_insert_eq.
      * destruct (btoa _); [|done]. intros [= <-] [= <-]. simpl.
        by rewrite lookup_insert_eq.
      * intros [= <-] [= <-]. simpl. by apply assign_is_Some.
    + by rewrite (applyAuth_other_headers _ _ _ _ _ _ Hrun Hne).
  - intros Hquery. revert Hrun. unfold applyAuth.
    change (match auth with Some a => Some a | None => globalAuth this end)
      with (chosen_auth this auth).
    destruct (chosen_auth this auth) as [[t|u p|key v [|]]|]; simpl.
    + intros [= <-]. simpl. apply or_else_Some.
    + destruct (btoa _); [|done]. intros [= <-]. simpl. apply or_else_Some.
    + intros [= <-]. simpl. apply or_else_Some.
    + by destruct (Hquery key v).
    + intros [= <-]. simpl. apply or_else_Some.
Qed.

(** X16. Under a Bearer strategy, under an ApiKey placed in a header and
    without a strategy [applyAuth] returns; under a Basic strategy it
    throws exactly what [btoa] throws for the user name and the password
    joined by a colon. When it returns, the header of a Bearer strategy is
    [Bearer] and the token, that of a Basic strategy is [Basic] and what
    [btoa] returned, and that of an ApiKey in a header is the value under
    the key, whatever the headers held before; but an ApiKey whose key is
    [__proto__] leaves headers without an entry of that name as they
    were. *)
Theorem applyAuth_writes (this : Carrier) (headers : gmap string string)
    (auth : option CarrierAuthConfig) (url : option string) :
  ((forall username password,
      chosen_auth this auth <> Some (AuthBasic username password)) ->
   (forall key value, chosen_auth this auth <> Some (AuthApiKey key value InQuery)) ->
   exists applied, applyAuth btoa this headers auth url = Returned applied) /\
  (forall username password e,
     chosen_auth this auth = Some (AuthBasic username password) ->
     (applyAuth btoa this headers auth url = Threw e <->
      btoa (username +:+ ":" +:+ password) = Threw e)) /\
  (forall applied, applyAuth btoa this headers auth url = Returned applied ->
     (forall t, chosen_auth this auth = Some (AuthBearer t) ->
        applied.1 !! "Authorization" = Some ("Bearer " +:+ t)) /\
     (forall username password,
        chosen_auth this auth = Some (AuthBasic username password) ->
        exists encoded,
          btoa (username +:+ ":" +:+ password) = Returned encoded /\
          applied.1 !! "Authorization" = Some ("Basic " +:+ encoded)) /\
     (forall key value,
        chosen_auth this auth = Some (AuthApiKey key value InHeader) ->
        (key <> "__proto__" \/ is_Some (headers !! key) ->
           applied.1 !! key = Some value) /\
        (key = "__proto__" -> headers !! key = None -> applied.1 = headers))).
Proof.
  unfold applyAuth.
  change (match auth with Some a => Some a | None => globalAuth this end)
    with (chosen_auth this auth).
  destruct (chosen_auth this auth) as [[t|u p|key v [|]]|]; simpl.
  - split; [by eexists|]. split; [done|].
    intros applied [= <-]. repeat split; try done.
    intros t' [= <-]. apply lookup_insert_eq.
  - split; [intros Hbasic _; by destruct (Hbasic u p)|]. split.
    + intros ? ? e [= <- <-].
      destruct (btoa (u +:+ ":" +:+ p)) as [encoded|e']; split; intros H;
        try discriminate H; injection H as ->; reflexivity.
    + destruct (btoa (u +:+ ":" +:+ p)) as [encoded|e'] eqn:Hb; [|done].
      intros applied [= <-]. repeat split; try done.
      intros ? ? [= <- <-]. exists encoded. split; [done|]. apply lookup_insert_eq.
  - split; [by eexists|]. split; [done|].
    intros applied [= <-]. split; [done|]. split; [done|].
    intros ? ? [= <- <-]. simpl. unfold Js.assign. split.
    + intros [Hkey|Hown].
      * destruct (String.eqb_spec key "__proto__"); [done|]. simpl.
        apply lookup_insert_eq.
      * rewrite bool_decide_true by done. rewrite andb_false_r.
        apply lookup_insert_eq.
    + intros -> Hnone. simpl.
      rewrite bool_decide_false; [done|]. rewrite Hnone. by intros [? ?].
  - split; [intros _ Hquery; by destruct (Hquery key v)|]. split; [done|].
    intros applied _. repeat split; done.
  - split; [by eexists|]. split; [done|].
    intros applied _. repeat split; done.
Qed.

End AuthFrame.

Lemma applyAuth_frame_witness :
  applyAuth Scenario.btoa Scenario.with_bearer {["X-Trace" := "1"]} None
    (Some "https://api.example/items")
  = Returned (<["Authorization" := "Bearer GLOBAL"]> {["X-Trace" := "1"]},
              "https://api.example/items") /\
  (<["Authorization" := "Bearer GLOBAL"]> {["X-Trace" := "1"]} : gmap string string)
    !! "X-Trace" = Some "1".
Proof.
  split; [reflexivity|].
  destruct (applyAuth_frame Scenario.btoa Scenario.with_bearer {["X-Trace" := "1"]}
              None "https://api.example/items"
              (<["Authorization" := "Bearer GLOBAL"]> {["X-Trace" := "1"]},
               "https://api.example/items") eq_refl) as (Hother & _ & _).
  etrans; [apply (Hother "X-Trace"); discriminate | reflexivity].
Defined.

Lemma applyAuth_writes_witness :
  applyAuth Scenario.btoa new_Carrier ∅ (Some (AuthBasic "user" "pass"))
    (Some "https://api.example/items")
  = Returned (<["Authorization" := "Basic dXNlcjpwYXNz"]> ∅,
              "https://api.example/items") /\
  (<["Authorization" := "Basic dXNlcjpwYXNz"]> ∅ : gmap string string)
    !! "Authorization" = Some "Basic dXNlcjpwYXNz" /\
  applyAuth Scenario.btoa new_Carrier {["Accept" := "text/csv"]}
    (Some (AuthApiKey "__proto__" "k3y" InHeader)) (Some "https://api.example/items")
  = Returned ({["Accept" := "text/csv"]}, "https://api.example/items").
Proof.
  split; [reflexivity|].
  destruct (applyAuth_writes Scenario.btoa new_Carrier ∅
              (Some (AuthBasic "user" "pass")) (Some "https://api.example/items"))
    as (_ & _ & Hwrites).
  destruct (Hwrites (<["Authorization" := "Basic dXNlcjpwYXNz"]> ∅,
                     "https://api.example/items") eq_refl) as (_ & Hbasic & _).
  destruct (Hbasic "user" "pass" eq_refl) as (encoded & Hencoded & Hheader).
  injection Hencoded as <-. split; [exact Hheader|].
  destruct (applyAuth_writes Scenario.btoa new_Carrier {["Accept" := "text/csv"]}
              (Some (AuthApiKey "__proto__" "k3y" InHeader))
              (Some "https://api.example/items"))
    as (Hreturns & _ & Hproto).
  destruct Hreturns as [[applied url] Hrun]; [discriminate | discriminate |].
  destruct (Hproto _ Hrun) as (_ & _ & Hkey).
  destruct (Hkey "__proto__" "k3y" eq_refl) as [_ Hsame].
  simpl in Hsame. rewrite Hrun. f_equal. f_equal.
  - by apply Hsame.
  - by injection Hrun.
Defined.

(** *** The headers of a request *)

(** X17. In the headers that [send] builds, a header of the caller keeps
    the caller's value (an [Authorization] header when it is not empty),
    also against the default content type; without a [Content-Type] of the
    caller's the content type is [application/json] for every method but
    GET, and absent for GET; no header other than [Content-Type] and
    [Authorization] is added. *)
Theorem build_headers_spread (this : Carrier) (opts : CarrierOptions) :
  let user := default ∅ (opt_headers opts) in
  (forall k v, user !! k = Some v -> k <> "Authorization" \/ v <> "" ->
     build_headers this opts !! k = Some v) /\
  (user !! "Content-Type" = None ->
     build_headers this opts !! "Content-Type" =
       if bool_decide (default GET (opt_method opts) = GET) then None
       else Some "application/json") /\
  (forall k, k <> "Content-Type" -> k <> "Authorization" ->
     build_headers this opts !! k = user !! k).
Proof.
  cbv zeta. unfold build_headers.
  set (user := default ∅ (opt_headers opts)).
  set (ct := if bool_decide (default GET (opt_method opts) ≠ GET) then _ else _).
  assert (Hct : forall k, k <> "Content-Type" -> ct !! k = None).
  { intros k Hk. unfold ct. case_bool_decide; [|done]. by apply lookup_singleton_ne. }
  assert (Hunion : forall k, k <> "Content-Type" -> (user ∪ ct) !! k = user !! k).
  { intros k Hk. destruct (user !! k) as [v|] eqn:Hu.
    - by apply lookup_union_Some_l.
    - apply lookup_union_None_2; [done | by apply Hct]. }
  split; [|split].
  - intros k v Hu Hor.
    assert (Hk : (user ∪ ct) !! k = Some v) by by apply lookup_union_Some_l.
    destruct (_ && _ && _) eqn:Hcond; [|done].
    destruct (decide (k = "Authorization")) as [->|Hne].
    + exfalso. rewrite Hk in Hcond. simpl in Hcond.
      destruct Hor as [|Hv]; [done|].
      destruct (String.eqb_spec v "") as [|_]; [done|].
      by rewrite andb_false_r in Hcond.
    + by rewrite lookup_insert_ne.
  - intros Hu.
    assert (Hk : (user ∪ ct) !! "Content-Type" = ct !! "Content-Type").
    { by apply lookup_union_r. }
    assert (Hv : ct !! "Content-Type" =
                 if bool_decide (default GET (opt_method opts) = GET) then None
                 else Some "application/json").
    { unfold ct. repeat case_bool_decide; try done; apply lookup_singleton_eq. }
    destruct (_ && _ && _); [rewrite lookup_insert_ne by done|]; congruence.
  - intros k Hk1 Hk2.
    destruct (_ && _ && _); [rewrite lookup_insert_ne by done|]; by apply Hunion.
Qed.


Lemma build_headers_spread_witness :
  build_headers Scenario.observed Scenario.post_item !! "Content-Type"
    = Some "application/json" /\
  build_headers Scenario.observed Scenario.get_items !! "Content-Type" = None /\
  build_headers Scenario.observed Scenario.get_with_authorization !! "Authorization"
    = Some "Custom abc".
Proof.
  destruct (build_headers_spread Scenario.observed Scenario.post_item) as (_ & Hpost & _).
  destruct (build_headers_spread Scenario.observed Scenario.get_items) as (_ & Hget & _).
  destruct (build_headers_spread Scenario.observed Scenario.get_with_authorization)
    as (Hcaller & _ & _).
  split; [by apply Hpost|]. split; [by apply Hget|].
  apply Hcaller; [reflexivity|]. right. discriminate.
Defined.


(** *** More on the dispatcher *)

Section RequestProperties.

Variable btoa : string -> Outcome string.
Variable stringify : Json -> Outcome (option string).
Variable fetch : string -> RequestInit -> Outcome Response.
Variable callback : CarrierHook -> list JsArg -> Heap -> Outcome unit * Heap.

Local Opaque trigger applyAuth resolveUrl build_headers.

Lemma only_calls_not_fetch (t : list Obs) (url : string) (init : RequestInit) :
  only_calls t -> Fetch url init ∈ t -> False.
Proof. intros H Hin. by apply H in Hin. Qed.

Lemma elem_of_single_fetch (before after : list Obs) (url url' : string)
    (init init' : RequestInit) :
  only_calls before -> only_calls after ->
  Fetch url init ∈ before ++ Fetch url' init' :: after ->
  url = url' /\ init = init'.
Proof.
  intros Hb Ha Hin. apply elem_of_app in Hin as [Hin|Hin].
  - by destruct (only_calls_not_fetch _ _ _ Hb Hin).
  - apply elem_of_cons in Hin as [Hin|Hin].
    + by injection Hin.
    + by destruct (only_calls_not_fetch _ _ _ Ha Hin).
Qed.

(** A run whose trace has a network call went through the pre-request
    hooks, [applyAuth] and [JSON.stringify]; what follows depends on
    [fetch] alone. *)
Lemma send_reaches_fetch (opts : CarrierOptions) (w w' : World) (o : Outcome unit)
    (t : list Obs) (url : string) (init : RequestInit) :
  send btoa stringify fetch callback opts w = (o, w') ->
  trace w' = trace w ++ t ->
  Fetch url init ∈ t ->
  let method := default GET (opt_method opts) in
  let headers := build_headers (self (heap w)) opts in
  let w0 := {| heap := with_options opts (heap w); trace := trace w |} in
  exists w1 w2 applied body before after,
    trigger callback EvRequest [ArgOptions] w0 = (Returned tt, w1) /\
    fire_verb callback method w1 = (Returned tt, w2) /\
    applyAuth btoa (self (heap w2)) headers (opt_auth (options (heap w2)))
      (Some (resolveUrl (self (heap w2)) (opt_url (options (heap w2)))))
      = Returned applied /\
    request_body stringify method (options (heap w2)) = Returned body /\
    url = applied.2 /\
    init = request_init method applied.1 (options (heap w2)) body /\
    t = before ++ Fetch url init :: after /\
    only_calls before /\ no_throw before /\ only_calls after /\
    match fetch url init with
    | Threw e => o = Threw e /\ after = [] /\ heap w' = heap w2
    | Returned r =>
        notify callback r
          (recorded r {| heap := heap w2; trace := trace w2 ++ [Fetch url init] |})
          = (o, w')
    end.
Proof.
  assert (Hreq : forall event, EvRequest = event -> fires_before_fetch event).
  { by intros ? <-. }
  rewrite send_stretches. cbv zeta. intros Hrun Ht Hin.
  destruct (trigger callback EvRequest [ArgOptions] _) as [o1 w1] eqn:E1.
  destruct (trigger_delta _ _ _ _ _ _ E1) as (t1 & Ht1 & Hc1 & Hd1). simpl in Ht1.
  destruct o1 as [[]|e1].
  2:{ injection Hrun as <- <-.
      assert (t = t1) as -> by (apply (app_inv_head (trace w)); congruence).
      by destruct (only_calls_not_fetch _ _ _ Hc1 Hin). }
  destruct (fire_verb callback _ w1) as [o2 w2] eqn:E2.
  destruct (fire_verb_delta _ _ _ _ _ E2) as (t2 & Ht2 & Hc2 & Hd2).
  assert (Hc12 : only_calls (t1 ++ t2)) by by apply only_calls_app.
  destruct o2 as [[]|e2].
  2:{ injection Hrun as <- <-.
      assert (t = t1 ++ t2) as ->.
      { apply (app_inv_head (trace w)). rewrite <- Ht, Ht2, Ht1. by rewrite app_assoc. }
      by destruct (only_calls_not_fetch _ _ _ Hc12 Hin). }
  destruct (applyAuth btoa _ _ _ _) as [applied|e3] eqn:E3.
  2:{ injection Hrun as <- <-.
      assert (t = t1 ++ t2) as ->.
      { apply (app_inv_head (trace w)). rewrite <- Ht, Ht2, Ht1. by rewrite app_assoc. }
      by destruct (only_calls_not_fetch _ _ _ Hc12 Hin). }
  destruct (request_body stringify _ _) as [body|e6] eqn:E6.
  2:{ injection Hrun as <- <-.
      assert (t = t1 ++ t2) as ->.
      { apply (app_inv_head (trace w)). rewrite <- Ht, Ht2, Ht1. by rewrite app_assoc. }
      by destruct (only_calls_not_fetch _ _ _ Hc12 Hin). }
  set (init0 := request_init (default GET (opt_method opts)) applied.1
                  (options (heap w2)) body) in *.
  assert (Hn12 : no_throw (t1 ++ t2)) by by apply no_throw_app.
  destruct (fetch applied.2 init0) as [r|e4] eqn:E4.
  - destruct (notify_delta _ _ _ _ _ Hrun) as (t5 & Ht5 & Hc5 & _). simpl in Ht5.
    assert (t = (t1 ++ t2) ++ Fetch applied.2 init0 :: t5) as ->.
    { apply (app_inv_head (trace w)). rewrite <- Ht, Ht5, Ht2, Ht1.
      by rewrite <- !app_assoc. }
    destruct (elem_of_single_fetch _ _ _ _ _ _ Hc12 Hc5 Hin) as [-> ->].
    exists w1, w2, applied, body, (t1 ++ t2), t5. rewrite E4.
    repeat split; done.
  - injection Hrun as <- <-.
    assert (t = (t1 ++ t2) ++ [Fetch applied.2 init0]) as ->.
    { apply (app_inv_head (trace w)). rewrite <- Ht. simpl. rewrite Ht2, Ht1.
      by rewrite <- !app_assoc. }
    destruct (elem_of_single_fetch _ _ _ _ _ _ Hc12 only_calls_nil Hin) as [-> ->].
    exists w1, w2, applied, body, (t1 ++ t2), []. rewrite E4.
    repeat split; try done. apply only_calls_nil.
Qed.

Lemma body_of_truthy (d : option Json) : json_truthy (Some (body_of d)) = true.
Proof.
  unfold body_of. destruct (json_truthy d) eqn:E; [|done].
  by destruct d.
Qed.

Lemma request_body_run (method : Method) (o : CarrierOptions) :
  request_body stringify method o =
  if bodiless method then Returned None else stringify (body_of (opt_data o)).
Proof. by destruct method. Qed.

(** The argument of [fetch] is built from the method of the call and from
    the options as the pre-request hooks left them. *)
Lemma fetch_request_init (opts : CarrierOptions) (w w' : World) (o : Outcome unit)
    (t : list Obs) (url : string) (init : RequestInit) :
  send btoa stringify fetch callback opts w = (o, w') ->
  trace w' = trace w ++ t ->
  Fetch url init ∈ t ->
  exists headers o2 body,
    init = request_init (default GET (opt_method opts)) headers o2 body /\
    request_body stringify (default GET (opt_method opts)) o2 = Returned body /\
    (callbacks_preserve callback options (self (heap w)) -> o2 = opts).
Proof.
  intros Hrun Ht Hin.
  destruct (send_reaches_fetch _ _ _ _ _ _ _ Hrun Ht Hin)
    as (w1 & w2 & applied & body & before & after & E1 & E2 & _ & Hbody & _ & Hinit & _).
  exists applied.1, (options (heap w2)), body. split; [exact Hinit|].
  split; [exact Hbody|]. intros Hall.
  apply (trigger_keeps _ options) in E1 as (Hp1 & _ & Hall1); [|done].
  apply (fire_verb_keeps _ options) in E2 as (Hp2 & _ & _); [|done].
  simpl in Hp1. congruence.
Qed.

(** X12. The method of the network call is the one the call was made
    with, GET when none was given, whatever the callbacks do to the
    options. A GET or HEAD request has no body. The body of any other
    request is what [JSON.stringify] returned, which is no body at all
    when that is [undefined]; the value it was given is never a falsy
    one: data that is missing, [null], [false], zero or the empty string
    is serialised as the empty object. When no callback changes the
    options that value is made from the caller's data, and the
    credentials mode is the caller's, [same-origin] when none was given. *)
Theorem request_method_and_body (opts : CarrierOptions) (w w' : World)
    (o : Outcome unit) (t : list Obs) (url : string) (init : RequestInit) :
  send btoa stringify fetch callback opts w = (o, w') ->
  trace w' = trace w ++ t ->
  Fetch url init ∈ t ->
  init_method init = default GET (opt_method opts) /\
  (bodiless (init_method init) = true -> init_body init = None) /\
  (bodiless (init_method init) = false ->
     exists d, stringify (body_of d) = Returned (init_body init) /\
               json_truthy (Some (body_of d)) = true) /\
  (callbacks_preserve callback options (self (heap w)) ->
     (bodiless (init_method init) = false ->
        stringify (body_of (opt_data opts)) = Returned (init_body init)) /\
     init_credentials init = default CredSameOrigin (opt_credentials opts)).
Proof.
  intros Hrun Ht Hin.
  destruct (fetch_request_init _ _ _ _ _ _ _ Hrun Ht Hin)
    as (headers & o2 & body & -> & Hbody & Hkept).
  rewrite request_body_run in Hbody. simpl.
  split; [done|]. split; [|split].
  - intros Hb. rewrite Hb in Hbody. by injection Hbody.
  - intros Hb. rewrite Hb in Hbody.
    exists (opt_data o2). split; [exact Hbody | apply body_of_truthy].
  - intros Hall. rewrite (Hkept Hall) in Hbody |- *. split; [|done].
    intros Hb. by rewrite Hb in Hbody.
Qed.

(** X13. A call issues at most one network call, whether it returns or
    throws, and exactly one when it returns. *)
Theorem send_one_network_call (opts : CarrierOptions) (w w' : World)
    (o : Outcome unit) (t : list Obs) :
  send btoa stringify fetch callback opts w = (o, w') ->
  trace w' = trace w ++ t ->
  (only_calls t \/
   exists before url init after,
     t = before ++ Fetch url init :: after /\ only_calls before /\ only_calls after) /\
  (o = Returned tt -> ~ only_calls t).
Proof.
  intros Hrun Ht. apply send_trace in Hrun. cbv zeta in Hrun.
  destruct Hrun as (t' & Ht' & Hshape).
  assert (t' = t) as -> by (apply (app_inv_head (trace w)); congruence).
  destruct Hshape as [(e & -> & [[Hc _]|[[Hc _] _]]) |
    (w1 & w2 & applied & body & before & after & _ & _ & _ & _ & -> & [Hb _] & Hafter)].
  - split; [by left | done].
  - split; [by left | done].
  - assert (Ha : only_calls after).
    { destruct Hafter as [(e & _ & -> & _) | (r & _ & Ha & _)];
        [apply only_calls_nil | done]. }
    split.
    + right. by eexists before, _, _, after.
    + intros _ Hnone. eapply Hnone. apply elem_of_app. right. apply list_elem_of_here.
Qed.

(** X11. When [fetch] throws, [send] throws the same exception, the
    network call is the last thing the call did, so that no post-response
    hook runs, and the container is not written: when no callback writes
    it either, it still holds what it held before the call. *)
Theorem fetch_failure_rejects (opts : CarrierOptions) (w w' : World)
    (o : Outcome unit) (t : list Obs) (url : string) (init : RequestInit)
    (e : JsError) :
  send btoa stringify fetch callback opts w = (o, w') ->
  trace w' = trace w ++ t ->
  Fetch url init ∈ t ->
  fetch url init = Threw e ->
  o = Threw e /\
  (exists earlier,
     t = earlier ++ [Fetch url init] /\ only_calls earlier /\ no_throw earlier) /\
  (callbacks_preserve callback (fun h => container (self h)) (self (heap w)) ->
     container (self (heap w')) = container (self (heap w))).
Proof.
  intros Hrun Ht Hin Hfetch.
  destruct (send_reaches_fetch _ _ _ _ _ _ _ Hrun Ht Hin)
    as (w1 & w2 & applied & body & before & after
        & E1 & E2 & _ & _ & _ & _ & -> & Hb & Hn & _ & Hend).
  rewrite Hfetch in Hend. destruct Hend as (-> & -> & Hheap).
  split; [done|]. split; [by exists before|].
  intros Hall.
  apply (trigger_keeps _ (fun h => container (self h))) in E1 as (Hp1 & _ & Hall1);
    [|done].
  apply (fire_verb_keeps _ (fun h => container (self h))) in E2 as (Hp2 & _ & _);
    [|done].
  simpl in Hp1. rewrite Hheap. congruence.
Qed.

(** X14. The headers are built before the first hook runs: when no callback
    changes the auth configuration in effect, every header of the network
    call other than the one this configuration writes is as [send] built
    it from the options and the token it was called with. *)
Theorem request_headers (opts : CarrierOptions) (w w' : World) (o : Outcome unit)
    (t : list Obs) (url : string) (init : RequestInit) (k : string) :
  callbacks_preserve callback
    (fun h => (globalAuth (self h), opt_auth (options h))) (self (heap w)) ->
  send btoa stringify fetch callback opts w = (o, w') ->
  trace w' = trace w ++ t ->
  Fetch url init ∈ t ->
  auth_header (chosen_auth (self (heap w)) (opt_auth opts)) <> Some k ->
  init_headers init !! k = build_headers (self (heap w)) opts !! k.
Proof.
  intros Hall Hrun Ht Hin Hk.
  destruct (send_reaches_fetch _ _ _ _ _ _ _ Hrun Ht Hin)
    as (w1 & w2 & applied & body & before & after & E1 & E2 & E3 & _ & _ & -> & _).
  apply (trigger_keeps _ (fun h => (globalAuth (self h), opt_auth (options h))))
    in E1 as (Hp1 & _ & Hall1); [|done].
  apply (fire_verb_keeps _ (fun h => (globalAuth (self h), opt_auth (options h))))
    in E2 as (Hp2 & _ & _); [|done].
  simpl in Hp1. simpl.
  apply (applyAuth_other_headers _ _ _ _ _ _ _ E3).
  rewrite (chosen_auth_keeps (self (heap w)) (self (heap w2)) (opt_auth opts)); [done|].
  congruence.
Qed.

(** X22. [send] itself never writes the credential store: when no
    registered callback writes it, it holds after the call what it held
    before, whether the call returns or throws. *)
Theorem send_keeps_store (opts : CarrierOptions) (w : World) :
  callbacks_preserve callback localStorage (self (heap w)) ->
  localStorage (heap (send btoa stringify fetch callback opts w).2) = localStorage (heap w).
Proof.
  intros Hall. rewrite send_stretches. cbv zeta.
  destruct (trigger callback EvRequest [ArgOptions] _) as [o1 w1] eqn:E1.
  apply (trigger_keeps _ localStorage) in E1 as (Hs1 & _ & Hall1); [|done].
  simpl in Hs1. destruct o1 as [[]|e1]; [|simpl; by rewrite Hs1].
  destruct (fire_verb callback _ w1) as [o2 w2] eqn:E2.
  apply (fire_verb_keeps _ localStorage) in E2 as (Hs2 & Hh2 & Hall2); [|done].
  destruct o2 as [[]|e2]; [|simpl; by rewrite Hs2, Hs1].
  destruct (applyAuth btoa _ _ _ _) as [applied|e3]; [|simpl; by rewrite Hs2, Hs1].
  destruct (request_body stringify _ _) as [body|e6]; [|simpl; by rewrite Hs2, Hs1].
  destruct (fetch _ _) as [r|e4]; [|simpl; by rewrite Hs2, Hs1].
  destruct (notify callback r _) as [o5 w5] eqn:E5.
  apply (notify_keeps _ localStorage) in E5 as (Hs5 & _ & _).
  - simpl in *. by rewrite Hs5, Hs2, Hs1.
  - apply (callbacks_preserve_hooks _ localStorage (self (heap w2))); done.
Qed.

(** X19. After a call that returned, when no callback writes the
    container, the container is the envelope of the response that [fetch]
    returned, and [check] holds exactly when the status of that response is
    in [200, 300) and its body parsed to something other than [null]: a
    response in that range whose body does not parse, or parses to
    [null], passes [ok] and fails [check]. *)
Theorem check_after_send (opts : CarrierOptions) (w w' : World) :
  send btoa stringify fetch callback opts w = (Returned tt, w') ->
  callbacks_preserve callback (fun h => container (self h)) (self (heap w)) ->
  exists url init r,
    fetch url init = Returned r /\
    container (self (heap w')) = envelope_of r /\
    check (self (heap w')) =
      in_success_range (resp_status r) &&
      match resp_json r with
      | Some JNull | None => false
      | Some _ => true
      end /\
    (check (self (heap w')) = true -> ok (self (heap w')) = true).
Proof.
  intros Hrun Hall. apply send_returned in Hrun. cbv zeta in Hrun.
  destruct Hrun as (w1 & w2 & applied & body & r & E1 & E2 & E3 & _ & E4 & E5).
  apply (trigger_keeps _ (fun h => container (self h))) in E1
    as (_ & Hh1 & Hall1); [|done].
  apply (fire_verb_keeps _ (fun h => container (self h))) in E2
    as (_ & Hh2 & Hall2); [|done].
  apply (notify_keeps _ (fun h => container (self h))) in E5 as (Hc & _ & _).
  2:{ apply (callbacks_preserve_hooks _ _ (self (heap w2))); done. }
  simpl in Hc. eexists _, _, r. split; [exact E4|]. split; [exact Hc|].
  unfold check, ok. rewrite Hc. simpl. split.
  - unfold in_success_range. by destruct (resp_json r) as [[]|].
  - intros H. by apply andb_true_iff in H as [H _].
Qed.

Lemma trigger_no_listeners (event : CarrierHookEvent) (args : list JsArg) (w : World) :
  listeners (self (heap w)) event = [] ->
  trigger callback event args w = (Returned tt, w).
Proof. intros H. by rewrite trigger_run, H. Qed.

(** X10. With no callback registered, [send] makes one network call, with
    the URL and the headers that [resolveUrl] and [applyAuth] give for the
    options of the caller and the body that [JSON.stringify] gives for
    the data, and none when [applyAuth] or [JSON.stringify] throws. It
    throws what [applyAuth], [JSON.stringify] or [fetch] throws and then
    leaves the client as it was; otherwise it returns, and all it changed
    in the client is the container, now the envelope of the response. *)
Theorem send_without_listeners (opts : CarrierOptions) (w : World) :
  no_listeners (self (heap w)) ->
  let this := self (heap w) in
  let method := default GET (opt_method opts) in
  let w0 := {| heap := with_options opts (heap w); trace := trace w |} in
  match applyAuth btoa this (build_headers this opts) (opt_auth opts)
          (Some (resolveUrl this (opt_url opts))) with
  | Threw e => send btoa stringify fetch callback opts w = (Threw e, w0)
  | Returned applied =>
      match request_body stringify method opts with
      | Threw e => send btoa stringify fetch callback opts w = (Threw e, w0)
      | Returned body =>
          let init := request_init method applied.1 opts body in
          let wf := {| heap := heap w0; trace := trace w ++ [Fetch applied.2 init] |} in
          match fetch applied.2 init with
          | Threw e => send btoa stringify fetch callback opts w = (Threw e, wf)
          | Returned r =>
              send btoa stringify fetch callback opts w = (Returned tt, recorded r wf)
          end
      end
  end.
Proof.
  intros Hnone. cbv zeta. rewrite send_stretches. cbv zeta.
  rewrite trigger_no_listeners by apply Hnone.
  rewrite fire_verb_run.
  assert (Hverb : match verb_event (default GET (opt_method opts)) with
                  | Some event =>
                      trigger callback event
                        (verb_args (default GET (opt_method opts))
                           (options (heap {| heap := with_options opts (heap w);
                                             trace := trace w |})))
                        {| heap := with_options opts (heap w); trace := trace w |}
                  | None => (Returned tt,
                             {| heap := with_options opts (heap w); trace := trace w |})
                  end
                  = (Returned tt,
                     {| heap := with_options opts (heap w); trace := trace w |})).
  { destruct (verb_event _); [|done]. apply trigger_no_listeners, Hnone. }
  rewrite Hverb. simpl.
  destruct (applyAuth btoa _ _ _ _) as [applied|e3]; [|done].
  destruct (request_body stringify _ _) as [body|e6]; [|done].
  destruct (fetch _ _) as [r|e4]; [|done].
  rewrite notify_run.
  rewrite trigger_no_listeners by apply Hnone.
  rewrite trigger_no_listeners by apply Hnone. done.
Qed.

(** X20. Each verb method issues its network call with its own method.
    That of [get] and [head] has no body; that of [post], [put], [delete],
    [patch] and [options] carries what [JSON.stringify] returned for a
    value that is never falsy, and when no callback changes the options
    that value is made from the data given, the empty object for
    [options] and for a call without data. *)
Theorem shortcut_requests (method : Method) (path : string) (d : option Json)
    (w w' : World) (o : Outcome unit) (t : list Obs) (url : string)
    (init : RequestInit) :
  shortcut btoa stringify fetch callback method path d w = (o, w') ->
  trace w' = trace w ++ t ->
  Fetch url init ∈ t ->
  init_method init = method /\
  (bodiless method = true -> init_body init = None) /\
  (bodiless method = false ->
     exists d', stringify (body_of d') = Returned (init_body init)) /\
  (callbacks_preserve callback options (self (heap w)) ->
   bodiless method = false ->
   stringify (body_of (match method with OPTIONS => None | _ => d end))
   = Returned (init_body init)).
Proof.
  intros Hrun Ht Hin.
  assert (Hsend : exists d0,
            d0 = match method with GET | HEAD | OPTIONS => None | _ => d end /\
            send btoa stringify fetch callback (Verb.literal method path d0) w = (o, w')).
  { eexists. split; [reflexivity|]. by destruct method. }
  destruct Hsend as (d0 & Hd0 & Hsend).
  destruct (fetch_request_init _ _ _ _ _ _ _ Hsend Ht Hin)
    as (headers & o2 & body & -> & Hbody & Hkept).
  rewrite request_body_run in Hbody. simpl in *.
  split; [done|]. split; [|split].
  - intros Hb. rewrite Hb in Hbody. by injection Hbody.
  - intros Hb. rewrite Hb in Hbody. by exists (opt_data o2).
  - intros Hall Hb. rewrite Hb, (Hkept Hall) in Hbody. simpl in Hbody.
    rewrite Hd0 in Hbody. by destruct method.
Qed.

(** X28. When [JSON.stringify] throws on the data of a request that has a
    body, and no callback changes the options, the call makes no network
    call and does not return: it throws what [JSON.stringify] threw, unless
    a callback or [btoa] threw before. *)
Theorem stringify_failure_rejects (opts : CarrierOptions) (w w' : World)
    (o : Outcome unit) (t : list Obs) (e : JsError) :
  callbacks_preserve callback options (self (heap w)) ->
  bodiless (default GET (opt_method opts)) = false ->
  stringify (body_of (opt_data opts)) = Threw e ->
  send btoa stringify fetch callback opts w = (o, w') ->
  trace w' = trace w ++ t ->
  only_calls t /\
  match o with
  | Returned _ => False
  | Threw e' =>
      e' = e \/ (exists s, btoa s = Threw e') \/
      exists event cb args, HookCall event cb args (Threw e') ∈ t
  end.
Proof.
  intros Hall Hb Hthrows Hrun Ht. revert Hrun. rewrite send_stretches. cbv zeta.
  destruct (trigger callback EvRequest [ArgOptions] _) as [o1 w1] eqn:E1.
  destruct (trigger_delta _ _ _ _ _ _ E1) as (t1 & Ht1 & Hc1 & Hd1). simpl in Ht1.
  apply (trigger_keeps _ options) in E1 as (Hp1 & _ & Hall1); [|done].
  simpl in Hp1. destruct o1 as [[]|e1].
  2:{ intros [= <- <-].
      assert (t = t1) as -> by (apply (app_inv_head (trace w)); congruence).
      split; [done|]. right. right.
      destruct Hd1 as (earlier & event & cb & args & -> & _).
      exists event, cb, args. apply elem_of_app. right. apply list_elem_of_here. }
  destruct (fire_verb callback _ w1) as [o2 w2] eqn:E2.
  destruct (fire_verb_delta _ _ _ _ _ E2) as (t2 & Ht2 & Hc2 & Hd2).
  apply (fire_verb_keeps _ options) in E2 as (Hp2 & _ & _); [|done].
  assert (Hc12 : only_calls (t1 ++ t2)) by by apply only_calls_app.
  assert (Ht12 : forall w3, trace w3 = trace w2 -> trace w3 = trace w ++ t ->
                            t = t1 ++ t2).
  { intros w3 H3 H. apply (app_inv_head (trace w)).
    rewrite <- H, H3, Ht2, Ht1. by rewrite app_assoc. }
  destruct o2 as [[]|e2].
  2:{ intros [= <- <-]. rewrite (Ht12 _ eq_refl Ht).
      split; [done|]. right. right.
      destruct Hd2 as (earlier & event & cb & args & -> & _).
      exists event, cb, args. apply elem_of_app. right.
      apply elem_of_app. right. apply list_elem_of_here. }
  destruct (applyAuth btoa _ _ _ _) as [applied|e3] eqn:E3.
  2:{ intros [= <- <-]. rewrite (Ht12 _ eq_refl Ht).
      split; [done|]. right. left. by apply applyAuth_threw in E3. }
  rewrite request_body_run, Hb, Hp2, Hp1, Hthrows.
  intros [= <- <-]. rewrite (Ht12 _ eq_refl Ht). split; [done|]. by left.
Qed.

End RequestProperties.

Lemma sample_callbacks_preserve {X} (part : Heap -> X) :
  callbacks_preserve Scenario.callback part Sample.watched.
Proof.
  intros cb (event & cbs & Hev & Hin) args h.
  assert (cb = 2%nat) as ->.
  { destruct event; vm_compute in Hev; try discriminate;
      injection Hev as <-; by apply list_elem_of_singleton in Hin. }
  done.
Qed.

Lemma send_without_listeners_witness :
  send Scenario.btoa Scenario.stringify Scenario.fetch Scenario.callback Scenario.get_with_authorization
    (world_of (Scenario.heap_of Scenario.with_bearer))
  = (Returned tt,
     recorded Scenario.created
       {| heap := with_options Scenario.get_with_authorization
                    (Scenario.heap_of Scenario.with_bearer);
          trace := [Fetch "https://api.example/items"
                      {| init_method := GET;
                         init_headers := {["Authorization" := "Bearer GLOBAL"]};
                         init_credentials := CredSameOrigin;
                         init_body := None |}] |}).
Proof.
  assert (Hnone : no_listeners Scenario.with_bearer).
  { intros event. unfold listeners. simpl. by rewrite lookup_empty. }
  exact (send_without_listeners Scenario.btoa Scenario.stringify Scenario.fetch Scenario.callback
           Scenario.get_with_authorization
           (world_of (Scenario.heap_of Scenario.with_bearer)) Hnone).
Defined.

Lemma fetch_failure_rejects_witness :
  (send Scenario.btoa Scenario.stringify Sample.fetch_offline Scenario.callback Scenario.get_items
     (world_of (Scenario.heap_of Sample.watched))).1
    = Threw (TypeError "Failed to fetch") /\
  container
    (self (heap (send Scenario.btoa Scenario.stringify Sample.fetch_offline Scenario.callback
                   Scenario.get_items (world_of (Scenario.heap_of Sample.watched))).2))
    = container Sample.watched.
Proof.
  destruct (fetch_failure_rejects Scenario.btoa Scenario.stringify Sample.fetch_offline Scenario.callback
              Scenario.get_items (world_of (Scenario.heap_of Sample.watched))
              _ _ _ "https://api.example/items" (Sample.plain_init GET)
              (TypeError "Failed to fetch") (run_outcome _ _ eq_refl) eq_refl)
    as (Hthrew & _ & Hkept).
  - apply list_elem_of_further, list_elem_of_here.
  - reflexivity.
  - split; [exact Hthrew|].
    apply Hkept, (sample_callbacks_preserve (fun h => container (self h))).
Defined.

Lemma request_method_and_body_witness :
  (exists init,
     Fetch "https://api.example/items" init
       ∈ trace (send Scenario.btoa Scenario.stringify Scenario.fetch Scenario.callback
                  (Verb.literal PATCH "/items" (Some (JNum 0)))
                  (world_of (Scenario.heap_of Sample.watched))).2 /\
     init_method init = PATCH /\
     init_body init = Some "{}") /\
  (exists init,
     Fetch "https://api.example/items" init
       ∈ trace (send Scenario.btoa Scenario.stringify Scenario.fetch Scenario.callback
                  Sample.post_function
                  (world_of (Scenario.heap_of Sample.watched))).2 /\
     init_method init = POST /\
     init_body init = None).
Proof.
  split.
  - assert (Hin : Fetch "https://api.example/items" (Sample.plain_init PATCH)
                    ∈ trace (send Scenario.btoa Scenario.stringify Scenario.fetch
                               Scenario.callback
                               (Verb.literal PATCH "/items" (Some (JNum 0)))
                               (world_of (Scenario.heap_of Sample.watched))).2).
    { apply list_elem_of_further, list_elem_of_here. }
    destruct (request_method_and_body Scenario.btoa Scenario.stringify Scenario.fetch
                Scenario.callback (Verb.literal PATCH "/items" (Some (JNum 0)))
                (world_of (Scenario.heap_of Sample.watched))
                _ _ _ _ _ (run_outcome _ _ eq_refl) eq_refl Hin)
      as (Hmethod & _ & _ & Hkept).
    destruct Hkept as [Hbody _]; [apply (sample_callbacks_preserve options)|].
    exists (Sample.plain_init PATCH). split; [exact Hin|]. split; [exact Hmethod|].
    specialize (Hbody eq_refl). reflexivity.
  - set (init := {| init_method := POST;
                    init_headers := init_headers (Sample.plain_init POST);
                    init_credentials := CredSameOrigin;
                    init_body := None |}).
    assert (Hin : Fetch "https://api.example/items" init
                    ∈ trace (send Scenario.btoa Scenario.stringify Scenario.fetch
                               Scenario.callback Sample.post_function
                               (world_of (Scenario.heap_of Sample.watched))).2).
    { apply list_elem_of_further, list_elem_of_here. }
    destruct (request_method_and_body Scenario.btoa Scenario.stringify Scenario.fetch
                Scenario.callback Sample.post_function
                (world_of (Scenario.heap_of Sample.watched))
                _ _ _ _ _ (run_outcome _ _ eq_refl) eq_refl Hin)
      as (Hmethod & _ & _ & Hkept).
    destruct Hkept as [Hbody _]; [apply (sample_callbacks_preserve options)|].
    exists init. split; [exact Hin|]. split; [exact Hmethod|].
    specialize (Hbody eq_refl). reflexivity.
Defined.

Lemma send_one_network_call_witness :
  ~ only_calls
      (trace (send Scenario.btoa Scenario.stringify Scenario.fetch Scenario.callback Scenario.post_item
                (world_of (Scenario.heap_of Scenario.observed))).2).
Proof.
  destruct (send_one_network_call Scenario.btoa Scenario.stringify Scenario.fetch Scenario.callback
              Scenario.post_item (world_of (Scenario.heap_of Scenario.observed))
              _ _ _ (run_outcome _ _ eq_refl) eq_refl) as [_ Hone].
  by apply Hone.
Defined.

Lemma request_headers_witness :
  init_headers (Sample.plain_init POST) !! "Content-Type"
  = build_headers Sample.watched (Verb.literal POST "/items" None) !! "Content-Type".
Proof.
  apply (request_headers Scenario.btoa Scenario.stringify Scenario.fetch Scenario.callback
           (Verb.literal POST "/items" None)
           (world_of (Scenario.heap_of Sample.watched))
           _ _ _ "https://api.example/items" (Sample.plain_init POST) "Content-Type"
           (sample_callbacks_preserve _) (run_outcome _ _ eq_refl) eq_refl).
  - apply list_elem_of_further, list_elem_of_here.
  - discriminate.
Defined.

Lemma send_keeps_store_witness :
  localStorage
    (heap (send Scenario.btoa Scenario.stringify Scenario.fetch Scenario.callback Scenario.post_item
             (world_of (Scenario.heap_of Sample.watched))).2)
  = ∅.
Proof.
  apply (send_keeps_store Scenario.btoa Scenario.stringify Scenario.fetch Scenario.callback
           Scenario.post_item (world_of (Scenario.heap_of Sample.watched))).
  apply (sample_callbacks_preserve localStorage).
Defined.

Lemma check_after_send_witness :
  ok (self (heap (send Scenario.btoa Scenario.stringify Sample.fetch_no_content Scenario.callback
                    Scenario.get_items
                    (world_of (Scenario.heap_of Sample.watched))).2)) = true /\
  check (self (heap (send Scenario.btoa Scenario.stringify Sample.fetch_no_content Scenario.callback
                       Scenario.get_items
                       (world_of (Scenario.heap_of Sample.watched))).2)) = false.
Proof.
  destruct (check_after_send Scenario.btoa Scenario.stringify Sample.fetch_no_content Scenario.callback
              Scenario.get_items (world_of (Scenario.heap_of Sample.watched))
              _ (run_outcome _ _ eq_refl)
              (sample_callbacks_preserve (fun h => container (self h))))
    as (url & init & r & Hfetch & Hcontainer & Hcheck & _).
  injection Hfetch as <-. split.
  - unfold ok. by rewrite Hcontainer.
  - exact Hcheck.
Defined.

Lemma shortcut_requests_witness :
  exists init,
    Fetch "https://api.example/items" init
      ∈ trace (shortcut Scenario.btoa Scenario.stringify Scenario.fetch
                 Scenario.callback OPTIONS "/items" None
                 (world_of (Scenario.heap_of Sample.watched))).2 /\
    init_method init = OPTIONS /\
    init_body init = Some "{}".
Proof.
  assert (Hin : Fetch "https://api.example/items" (Sample.plain_init OPTIONS)
                  ∈ trace (shortcut Scenario.btoa Scenario.stringify Scenario.fetch
                             Scenario.callback OPTIONS "/items" None
                             (world_of (Scenario.heap_of Sample.watched))).2).
  { apply list_elem_of_further, list_elem_of_here. }
  destruct (shortcut_requests Scenario.btoa Scenario.stringify Scenario.fetch
              Scenario.callback OPTIONS "/items" None
              (world_of (Scenario.heap_of Sample.watched))
              _ _ _ _ _ (run_outcome _ _ eq_refl) eq_refl Hin)
    as (Hmethod & _ & _ & Hbody).
  exists (Sample.plain_init OPTIONS). split; [exact Hin|]. split; [exact Hmethod|].
  specialize (Hbody (sample_callbacks_preserve options) eq_refl).
  reflexivity.
Defined.

Lemma stringify_failure_rejects_witness :
  (send Scenario.btoa Scenario.stringify Scenario.fetch Scenario.callback
     Sample.post_bigint (world_of (Scenario.heap_of Sample.watched))).1
    = Threw (TypeError "Do not know how to serialize a BigInt") /\
  only_calls
    (trace (send Scenario.btoa Scenario.stringify Scenario.fetch Scenario.callback
              Sample.post_bigint (world_of (Scenario.heap_of Sample.watched))).2).
Proof.
  destruct (stringify_failure_rejects Scenario.btoa Scenario.stringify Scenario.fetch
              Scenario.callback Sample.post_bigint
              (world_of (Scenario.heap_of Sample.watched)) _ _ _
              (TypeError "Do not know how to serialize a BigInt")
              (sample_callbacks_preserve options) eq_refl eq_refl
              (run_outcome _ _ eq_refl) eq_refl) as [Hcalls Hthrew].
  split; [reflexivity | exact Hcalls].
Defined.

(** *** The earlier versions *)

Lemma resolveUrl_not_absolute (this : Carrier) (url : string) :
  ~ absolute_url url -> resolveUrl this url = baseUrl this +:+ url.
Proof.
  intros Hrel. unfold resolveUrl.
  destruct (Js.startsWith url "http://" || Js.startsWith url "https://") eqn:E.
  - exfalso. apply Hrel. unfold Js.startsWith in E.
    apply orb_true_iff in E. rewrite !prefix_append in E.
    destruct E as [[rest H]|[rest H]]; exists rest; [by left | by right].
  - by rewrite or_else_Some.
Qed.

Lemma truthy_blank (o : option string) : blank o -> Js.truthy o = false.
Proof. by intros [->| ->]. Qed.

(** *** A profile that is inherited *)

Section InheritedProfile.

Variable hostname : option string.
Variable inherited : string -> option string.
Variable rejects : gmap string string -> string -> string -> option JsError.

(** X29. An environment for which the profiles hold nothing of their own,
    but whose name is that of a property that objects inherit, counts as
    found: [configureProfiles] does not throw the configuration error, the
    inherited value becomes the base URL, as the string it reads as, and
    the relative paths of later requests are appended to it. The call
    throws only when the credential store refuses the token that came
    with the configuration. *)
Theorem configureProfiles_inherited (config : CarrierProfileConfig)
    (env text : string) (w : World) :
  resolves_to hostname config env ->
  cfg_profiles config !! env = None ->
  inherited env = Some text ->
  exists o w',
    configureProfiles hostname inherited rejects config w = (o, w') /\
    baseUrl (self (heap w')) = text /\
    (forall e, o = Threw e ->
       exists t, cfg_token config = Some t /\
                 rejects (localStorage (heap w)) "token" t = Some e) /\
    (forall path, ~ absolute_url path ->
       resolveUrl (self (heap w')) path = text +:+ path).
Proof.
  intros Henv Hown Hinherited. rewrite (configureProfiles_run _ _ _ _ _ _ Henv).
  unfold Js.get. rewrite Hown, Hinherited. simpl.
  unfold bind, modify_self, modify_heap.
  destruct (Js.present (cfg_token config)) as [t|] eqn:Htoken.
  - apply present_Some in Htoken as [Htoken _]. rewrite setToken_run. simpl.
    destruct (rejects (localStorage (heap w)) "token" t) as [e|] eqn:Hstore;
      eexists _, _; (split; [reflexivity|]); simpl; (split; [done|]); split;
      try (intros path Hpath; by rewrite resolveUrl_not_absolute).
    + intros e' [= <-]. by exists t.
    + done.
  - eexists _, _. split; [reflexivity|]. simpl. split; [done|]. split; [done|].
    intros path Hpath. by rewrite resolveUrl_not_absolute.
Qed.

End InheritedProfile.

Lemma configureProfiles_inherited_witness :
  exists w',
    configureProfiles Scenario.hostname Scenario.inherited Scenario.rejects
      Scenario.constructed (world_of (Scenario.heap_of new_Carrier))
      = (Returned tt, w') /\
    resolveUrl (self (heap w')) "/items" = "function Object() { [native code] }/items".
Proof.
  destruct (configureProfiles_inherited Scenario.hostname Scenario.inherited
              Scenario.rejects Scenario.constructed "constructor"
              "function Object() { [native code] }"
              (world_of (Scenario.heap_of new_Carrier)))
    as (o & w' & Hrun & _ & _ & Hpaths).
  - left. split; [reflexivity | discriminate].
  - reflexivity.
  - reflexivity.
  - exists w'. split.
    + rewrite Hrun. f_equal.
      assert (Ho : (configureProfiles Scenario.hostname Scenario.inherited
                      Scenario.rejects Scenario.constructed
                      (world_of (Scenario.heap_of new_Carrier))).1 = Returned tt)
        by reflexivity.
      rewrite Hrun in Ho. exact Ho.
    + apply Hpaths. intros [rest [H|H]]; discriminate H.
Defined.

Section EarlierVersions.

Variable rejects : gmap string string -> string -> string -> option JsError.
Variable btoa : string -> Outcome string.
Variable stringify : Json -> Outcome (option string).
Variable fetch : string -> RequestInit -> Outcome Response.
Variable callback : CarrierHook -> list JsArg -> Heap -> Outcome unit * Heap.

Lemma earlier_send_run (opts : CarrierOptions) (w : World) :
  Earlier.send stringify fetch opts w =
  let this := self (heap w) in
  let url := baseUrl this +:+ opt_url opts in
  match Earlier.request_body stringify opts with
  | Threw e => (Threw e, w)
  | Returned body =>
      let init := Earlier.request_init (default GET (opt_method opts))
                    (Earlier.build_headers this opts) opts body in
      let wf := {| heap := heap w; trace := trace w ++ [Fetch url init] |} in
      match fetch url init with
      | Threw e => (Threw e, wf)
      | Returned r => (Returned tt, recorded r wf)
      end
  end.
Proof.
  cbv zeta. unfold Earlier.send, bind, gets, emit, lift, modify_self. simpl.
  destruct (Earlier.request_body stringify opts) as [body|e]; [|by destruct w].
  by destruct (fetch _ _).
Qed.

Lemma first_send_run (opts : CarrierOptions) (w : World) :
  First.send stringify fetch opts w =
  let this := self (heap w) in
  let url := baseUrl this +:+ opt_url opts in
  match First.request_body stringify opts with
  | Threw e => (Threw e, w)
  | Returned body =>
      let init := First.request_init (default GET (opt_method opts))
                    (First.build_headers this opts) opts body in
      let wf := {| heap := heap w; trace := trace w ++ [Fetch url init] |} in
      match fetch url init with
      | Threw e => (Threw e, wf)
      | Returned r => (Returned tt, recorded r wf)
      end
  end.
Proof.
  cbv zeta. unfold First.send, bind, gets, emit, lift, modify_self. simpl.
  destruct (First.request_body stringify opts) as [body|e]; [|by destruct w].
  by destruct (fetch _ _).
Qed.

(** X24. In [carrier.ts] a client with a token, unless the call says
    [useToken: false], sends the token as [Authorization] whatever the
    caller put there, and leaves the other headers of the caller alone;
    the URL of the one network call is the path after the base URL,
    absolute path or not. There is no network call when [JSON.stringify]
    throws on the data of a request that is no GET: [send] then throws
    the same and changes nothing. *)
Theorem earlier_token_replaces_authorization (opts : CarrierOptions) (w : World)
    (t : string) :
  token (self (heap w)) = Some t -> t <> "" -> opt_useToken opts <> Some false ->
  match Earlier.request_body stringify opts with
  | Threw e => Earlier.send stringify fetch opts w = (Threw e, w)
  | Returned body =>
      exists init,
        trace (Earlier.send stringify fetch opts w).2
        = trace w ++ [Fetch (baseUrl (self (heap w)) +:+ opt_url opts) init] /\
        init_body init = body /\
        init_headers init !! "Authorization" = Some ("Bearer " +:+ t) /\
        (forall name, name <> "Authorization" -> name <> "Content-Type" ->
           init_headers init !! name = default ∅ (opt_headers opts) !! name)
  end.
Proof.
  intros Htoken Ht Huse. rewrite earlier_send_run. cbv zeta.
  destruct (Earlier.request_body stringify opts) as [body|e]; [|done].
  eexists. split; [by destruct (fetch _ _)|]. split; [reflexivity|].
  unfold Earlier.request_init, Earlier.build_headers. cbn [init_headers].
  assert (Htruthy : Js.truthy (Some t) = true) by by destruct t.
  rewrite Htoken, Htruthy, bool_decide_true by done. simpl. split.
  - apply lookup_insert_eq.
  - intros name Hauth Hct. rewrite lookup_insert_ne by done.
    rewrite lookup_union_l; [done|].
    case_bool_decide; [by apply lookup_singleton_ne | apply lookup_empty].
Qed.

(** X25. Where a call uses nothing that [carrier.ts] does not have, the
    class behaves as [carrier.ts] did: with no callback registered, no
    auth strategy on the client or the call, a path that is not absolute,
    a method other than HEAD and no [Authorization] header from the
    caller, [send] ends as [send] of [carrier.ts] does, with the same
    network call, the same client and the same credential store. *)
Theorem send_agrees_with_earlier (opts : CarrierOptions) (w : World) :
  no_listeners (self (heap w)) ->
  globalAuth (self (heap w)) = None ->
  opt_auth opts = None ->
  ~ absolute_url (opt_url opts) ->
  default GET (opt_method opts) <> HEAD ->
  blank (default ∅ (opt_headers opts) !! "Authorization") ->
  same_run (send btoa stringify fetch callback opts w)
    (Earlier.send stringify fetch opts w).
Proof.
  intros Hnone Hglobal Hauth Hrel Hhead Hblank.
  assert (Hheaders : build_headers (self (heap w)) opts
                     = Earlier.build_headers (self (heap w)) opts).
  { unfold build_headers, Earlier.build_headers.
    assert (Hcaller : Js.truthy
              ((default ∅ (opt_headers opts) ∪
                (if bool_decide (default GET (opt_method opts) ≠ GET)
                 then {["Content-Type" := "application/json"]} else ∅))
               !! "Authorization") = false).
    { apply truthy_blank.
      destruct Hblank as [Hb|Hb].
      - left. apply lookup_union_None. split; [done|].
        case_bool_decide; [by apply lookup_singleton_ne | apply lookup_empty].
      - right. by apply lookup_union_Some_l. }
    cbv zeta. rewrite Hcaller. simpl. by rewrite andb_true_r. }
  assert (Hbody : request_body stringify (default GET (opt_method opts)) opts
                  = Earlier.request_body stringify opts).
  { unfold request_body, Earlier.request_body.
    rewrite (bool_decide_true (default GET (opt_method opts) ≠ HEAD)) by done.
    by rewrite andb_true_r. }
  rewrite send_stretches, earlier_send_run. cbv zeta.
  rewrite trigger_no_listeners by apply Hnone.
  rewrite fire_verb_run.
  assert (Hverb : match verb_event (default GET (opt_method opts)) with
                  | Some event =>
                      trigger callback event
                        (verb_args (default GET (opt_method opts))
                           (options (heap {| heap := with_options opts (heap w);
                                             trace := trace w |})))
                        {| heap := with_options opts (heap w); trace := trace w |}
                  | None => (Returned tt,
                             {| heap := with_options opts (heap w); trace := trace w |})
                  end
                  = (Returned tt,
                     {| heap := with_options opts (heap w); trace := trace w |})).
  { destruct (verb_event _); [|done]. apply trigger_no_listeners, Hnone. }
  rewrite Hverb. simpl.
  unfold applyAuth. rewrite Hauth, Hglobal, or_else_Some. simpl.
  rewrite resolveUrl_not_absolute, Hheaders, Hbody by done.
  destruct (Earlier.request_body stringify opts) as [body|e6]; [|done].
  change (request_init (default GET (opt_method opts))
            (Earlier.build_headers (self (heap w)) opts) opts body)
    with (Earlier.request_init (default GET (opt_method opts))
            (Earlier.build_headers (self (heap w)) opts) opts body).
  destruct (fetch _ _) as [r|e]; [|done].
  rewrite notify_run.
  rewrite trigger_no_listeners by apply Hnone.
  rewrite trigger_no_listeners by apply Hnone. done.
Qed.

(** X26. The first version and [carrier.ts] differ in one header: the
    first version sends the headers of [carrier.ts] and, where those have
    none, the JSON content type. So the two [send] do the same for every
    method but GET, and for GET when the caller gives a content type. *)
Theorem first_send_agrees_with_earlier (opts : CarrierOptions) (w : World) :
  First.build_headers (self (heap w)) opts
  = Earlier.build_headers (self (heap w)) opts ∪ {["Content-Type" := "application/json"]} /\
  (default GET (opt_method opts) <> GET \/
   is_Some (default ∅ (opt_headers opts) !! "Content-Type") ->
   First.send stringify fetch opts w = Earlier.send stringify fetch opts w).
Proof.
  assert (Hunion : forall extra : gmap string string,
            extra = ∅ \/ extra = {["Content-Type" := "application/json"]} ->
            (default ∅ (opt_headers opts) ∪ extra) ∪ {["Content-Type" := "application/json"]}
            = default ∅ (opt_headers opts) ∪ {["Content-Type" := "application/json"]}).
  { intros extra Hextra. rewrite <- (assoc_L (∪)). f_equal.
    destruct Hextra as [->| ->]; [apply (left_id_L ∅ (∪)) | apply (idemp_L (∪))]. }
  assert (Hextra : (if bool_decide (default GET (opt_method opts) ≠ GET)
                    then {["Content-Type" := "application/json"]} else ∅)
                   = (∅ : gmap string string) \/
                   (if bool_decide (default GET (opt_method opts) ≠ GET)
                    then {["Content-Type" := "application/json"]} else ∅)
                   = ({["Content-Type" := "application/json"]} : gmap string string)).
  { case_bool_decide; [by right | by left]. }
  assert (Hheaders : First.build_headers (self (heap w)) opts
                     = Earlier.build_headers (self (heap w)) opts
                       ∪ {["Content-Type" := "application/json"]}).
  { unfold First.build_headers, Earlier.build_headers. cbv zeta.
    destruct (bool_decide (opt_useToken opts ≠ Some false) && Js.truthy _).
    - by rewrite <- insert_union_l, (Hunion _ Hextra).
    - by rewrite (Hunion _ Hextra). }
  split; [exact Hheaders|].
  intros Hsame. rewrite first_send_run, earlier_send_run. cbv zeta.
  assert (Heq : First.build_headers (self (heap w)) opts
                = Earlier.build_headers (self (heap w)) opts).
  { unfold First.build_headers, Earlier.build_headers. cbv zeta.
    assert (Hbase : default ∅ (opt_headers opts) ∪ {["Content-Type" := "application/json"]}
                    = default ∅ (opt_headers opts) ∪
                      (if bool_decide (default GET (opt_method opts) ≠ GET)
                       then {["Content-Type" := "application/json"]} else ∅)).
    { destruct Hsame as [Hmethod|[ct Hct]].
      - by rewrite bool_decide_true.
      - case_bool_decide; [done|].
        rewrite (right_id_L ∅ (∪)). apply map_eq. intros name.
        destruct (decide (name = "Content-Type")) as [->|Hname].
        + rewrite Hct. by apply lookup_union_Some_l.
        + rewrite lookup_union_l; [done|]. by apply lookup_singleton_ne. }
    by rewrite Hbase. }
  rewrite Heq.
  change (First.request_body stringify opts) with (Earlier.request_body stringify opts).
  destruct (Earlier.request_body stringify opts) as [body|e]; [|done].
  change (First.request_init (default GET (opt_method opts))
            (Earlier.build_headers (self (heap w)) opts) opts body)
    with (Earlier.request_init (default GET (opt_method opts))
            (Earlier.build_headers (self (heap w)) opts) opts body).
  done.
Qed.

(** X27. A token set in one session is sent in the next: when [setToken]
    has returned, the client that the constructor of the first version
    makes over the credential store it left sends that token as
    [Authorization], unless the call says [useToken: false], to the local
    server when the host is [localhost] and to the production server
    otherwise; it makes no network call when [JSON.stringify] throws on
    the data. *)
Theorem first_client_sends_stored_token (hostname : option string) (t : string)
    (opts : CarrierOptions) (w : World) (h : Heap) :
  t <> "" -> opt_useToken opts <> Some false ->
  (setToken rejects t w).1 = Returned tt ->
  self h = First.constructor hostname (localStorage (heap (setToken rejects t w).2)) ->
  match First.request_body stringify opts with
  | Threw e => First.send stringify fetch opts (world_of h) = (Threw e, world_of h)
  | Returned body =>
      exists init,
        trace (First.send stringify fetch opts (world_of h)).2
        = [Fetch ((if bool_decide (hostname = Some "localhost")
                   then "http://localhost:8080" else "https://mailenasistente.com")
                  +:+ opt_url opts) init] /\
        init_body init = body /\
        init_headers init !! "Authorization" = Some ("Bearer " +:+ t)
  end.
Proof.
  intros Ht Huse Hset Hself. rewrite first_send_run. cbv zeta.
  destruct (First.request_body stringify opts) as [body|e]; [|done].
  assert (Htoken : token (self h) = Some t).
  { rewrite Hself. revert Hset. rewrite setToken_run.
    destruct (rejects _ _ _); [done|]. intros _. simpl. apply lookup_insert_eq. }
  eexists. split; [destruct (fetch _ _); simpl; by rewrite Hself|].
  split; [reflexivity|]. rewrite Hself in Htoken.
  unfold First.request_init, First.build_headers.
  cbn [init_headers]. change (heap (world_of h)) with h.
  assert (Htruthy : Js.truthy (Some t) = true) by by destruct t.
  rewrite Htoken, Htruthy, bool_decide_true by done. simpl.
  apply lookup_insert_eq.
Qed.

End EarlierVersions.

Lemma earlier_token_replaces_authorization_witness :
  exists init,
    trace (Earlier.send Scenario.stringify Scenario.fetch Sample.get_csv
             (world_of (Scenario.heap_of Sample.plain))).2
    = [Fetch "https://api.example/report" init] /\
    init_headers init !! "Authorization" = Some "Bearer T0K3N" /\
    init_headers init !! "Content-Type" = Some "text/csv".
Proof.
  destruct (earlier_token_replaces_authorization Scenario.stringify Scenario.fetch
              Sample.get_csv (world_of (Scenario.heap_of Sample.plain)) "T0K3N")
    as (init & Htrace & _ & Hauth & _); [reflexivity | discriminate | discriminate |].
  exists init. split; [exact Htrace|]. split; [exact Hauth|].
  injection Htrace as <-. reflexivity.
Defined.

Lemma send_agrees_with_earlier_witness :
  same_run
    (send Scenario.btoa Scenario.stringify Scenario.fetch Scenario.callback
       Scenario.post_item (world_of (Scenario.heap_of Sample.plain)))
    (Earlier.send Scenario.stringify Scenario.fetch Scenario.post_item
       (world_of (Scenario.heap_of Sample.plain))).
Proof.
  apply (send_agrees_with_earlier Scenario.btoa Scenario.stringify Scenario.fetch
           Scenario.callback Scenario.post_item
           (world_of (Scenario.heap_of Sample.plain))).
  - intros event. unfold listeners. simpl. by rewrite lookup_empty.
  - reflexivity.
  - reflexivity.
  - intros [rest [H|H]]; discriminate H.
  - discriminate.
  - by left.
Defined.

Lemma first_send_agrees_with_earlier_witness :
  First.send Scenario.stringify Scenario.fetch Sample.get_csv
    (world_of (Scenario.heap_of Sample.plain))
  = Earlier.send Scenario.stringify Scenario.fetch Sample.get_csv
      (world_of (Scenario.heap_of Sample.plain)).
Proof.
  apply (first_send_agrees_with_earlier Scenario.stringify Scenario.fetch
           Sample.get_csv (world_of (Scenario.heap_of Sample.plain))).
  right. by exists "text/csv".
Defined.

Lemma first_client_sends_stored_token_witness :
  exists init,
    trace (First.send Scenario.stringify Scenario.fetch Scenario.get_items
             (world_of (Sample.later_session
                          (setToken Scenario.rejects "s3cret"
                             (world_of (Scenario.heap_of Sample.plain))).2))).2
    = [Fetch "http://localhost:8080/items" init] /\
    init_headers init !! "Authorization" = Some "Bearer s3cret".
Proof.
  destruct (first_client_sends_stored_token Scenario.rejects Scenario.stringify
              Scenario.fetch (Some "localhost") "s3cret"
              Scenario.get_items (world_of (Scenario.heap_of Sample.plain))
              (Sample.later_session
                 (setToken Scenario.rejects "s3cret"
                    (world_of (Scenario.heap_of Sample.plain))).2))
    as (init & Htrace & _ & Hauth);
    [discriminate | discriminate | reflexivity | reflexivity |].
  by exists init.
Defined.
